(** * MarketDB: the persistence layer of the market community

    A shallow embedding of [anydex/core/database.py] and
    [anydex/core/payment_id.py].  The SQLite store is a record of tables, each
    table a list of typed rows in insertion order; a connection sees a working
    copy of the tables, and [commit] makes the working copy durable.  Python
    exceptions are outcomes that leave the store as it was when they were
    raised. *)

From stdpp Require Import base decidable numbers list strings sorting pretty.
From Equations Require Import Equations.
From Stdlib Require Import Ascii.

Open Scope Z_scope.

(** ** Python values and exceptions *)

(** [bytes] objects are sequences of 8-bit characters. *)
Definition bytes := string.

(** The dynamically typed values that reach [check_database] and
    [PaymentId.__init__]. *)
Inductive pyval :=
| PyNone
| PyInt (n : Z)
| PyStr (s : string)
| PyBytes (b : bytes).

Inductive exn :=
| AssertionError
| TypeError
| IntegrityError      (* sqlite3: PRIMARY KEY constraint failed *)
| OperationalError.   (* sqlite3: no such table *)

Inductive outcome (A : Type) :=
| Return (a : A)
| Raise (e : exn).
Arguments Return {A} a.
Arguments Raise {A} e.

(** ** Rows, column for column as in [schema] *)

Record OrderRow := {
  ord_trader_id : bytes;
  ord_order_number : Z;
  ord_asset1_amount : Z;
  ord_asset1_type : string;
  ord_asset2_amount : Z;
  ord_asset2_type : string;
  ord_traded_quantity : Z;
  ord_received_quantity : Z;
  ord_timeout : Z;
  ord_order_timestamp : Z;
  ord_completed_timestamp : option Z;
  ord_is_ask : bool;
  ord_cancelled : bool;
  ord_verified : bool }.

Record TransactionRow := {
  tx_trader_id : bytes;
  tx_transaction_id : bytes;
  tx_order_number : Z;
  tx_partner_trader_id : bytes;
  tx_partner_order_number : Z;
  tx_asset1_amount : Z;
  tx_asset1_type : string;
  tx_asset1_transferred : Z;
  tx_asset2_amount : Z;
  tx_asset2_type : string;
  tx_asset2_transferred : Z;
  tx_transaction_timestamp : Z;
  tx_sent_wallet_info : bool;
  tx_received_wallet_info : bool;
  tx_incoming_address : string;
  tx_outgoing_address : string;
  tx_partner_incoming_address : string;
  tx_partner_outgoing_address : string }.

Record PaymentRow := {
  pay_trader_id : bytes;
  pay_transaction_id : bytes;
  pay_payment_id : string;
  pay_transferred_amount : Z;
  pay_transferred_type : string;
  pay_address_from : string;
  pay_address_to : string;
  pay_timestamp : Z }.

Record TickRow := {
  tick_trader_id : bytes;
  tick_order_number : Z;
  tick_asset1_amount : Z;
  tick_asset1_type : string;
  tick_asset2_amount : Z;
  tick_asset2_type : string;
  tick_timeout : Z;
  tick_timestamp : Z;
  tick_is_ask : bool;
  tick_traded : Z;
  tick_block_hash : bytes }.

Record ReservedTickRow := {
  res_trader_id : bytes;
  res_order_number : Z;
  res_reserved_trader_id : bytes;
  res_reserved_order_number : Z;
  res_quantity : Z }.

(** A row of [option(key TEXT PRIMARY KEY, value BLOB)]. *)
Record OptionRow := {
  opt_key : string;
  opt_value : string }.

(** ** The store *)

(** A table that does not exist is [None].  [tbl_traders] is the legacy
    [traders] table: the upgrade script drops it and [schema] never creates it,
    so its rows stay opaque. *)
Record Tables := {
  tbl_orders : option (list OrderRow);
  tbl_transactions : option (list TransactionRow);
  tbl_payments : option (list PaymentRow);
  tbl_ticks : option (list TickRow);
  tbl_orders_reserved_ticks : option (list ReservedTickRow);
  tbl_option : option (list OptionRow);
  tbl_traders : option (list bytes) }.

(** [work] is what the connection reads and writes; [durable] is the state as
    of the last commit. *)
Record DB := {
  work : Tables;
  durable : Tables }.

Definition set_work (f : Tables → Tables) (db : DB) : DB :=
  {| work := f (work db); durable := durable db |}.

Definition set_orders (v : option (list OrderRow)) (t : Tables) : Tables :=
  {| tbl_orders := v;
     tbl_transactions := tbl_transactions t;
     tbl_payments := tbl_payments t;
     tbl_ticks := tbl_ticks t;
     tbl_orders_reserved_ticks := tbl_orders_reserved_ticks t;
     tbl_option := tbl_option t;
     tbl_traders := tbl_traders t |}.

Definition set_transactions (v : option (list TransactionRow)) (t : Tables) : Tables :=
  {| tbl_orders := tbl_orders t;
     tbl_transactions := v;
     tbl_payments := tbl_payments t;
     tbl_ticks := tbl_ticks t;
     tbl_orders_reserved_ticks := tbl_orders_reserved_ticks t;
     tbl_option := tbl_option t;
     tbl_traders := tbl_traders t |}.

Definition set_payments (v : option (list PaymentRow)) (t : Tables) : Tables :=
  {| tbl_orders := tbl_orders t;
     tbl_transactions := tbl_transactions t;
     tbl_payments := v;
     tbl_ticks := tbl_ticks t;
     tbl_orders_reserved_ticks := tbl_orders_reserved_ticks t;
     tbl_option := tbl_option t;
     tbl_traders := tbl_traders t |}.

Definition set_ticks (v : option (list TickRow)) (t : Tables) : Tables :=
  {| tbl_orders := tbl_orders t;
     tbl_transactions := tbl_transactions t;
     tbl_payments := tbl_payments t;
     tbl_ticks := v;
     tbl_orders_reserved_ticks := tbl_orders_reserved_ticks t;
     tbl_option := tbl_option t;
     tbl_traders := tbl_traders t |}.

Definition set_orders_reserved_ticks (v : option (list ReservedTickRow)) (t : Tables) : Tables :=
  {| tbl_orders := tbl_orders t;
     tbl_transactions := tbl_transactions t;
     tbl_payments := tbl_payments t;
     tbl_ticks := tbl_ticks t;
     tbl_orders_reserved_ticks := v;
     tbl_option := tbl_option t;
     tbl_traders := tbl_traders t |}.

Definition set_option (v : option (list OptionRow)) (t : Tables) : Tables :=
  {| tbl_orders := tbl_orders t;
     tbl_transactions := tbl_transactions t;
     tbl_payments := tbl_payments t;
     tbl_ticks := tbl_ticks t;
     tbl_orders_reserved_ticks := tbl_orders_reserved_ticks t;
     tbl_option := v;
     tbl_traders := tbl_traders t |}.

Definition set_traders (v : option (list bytes)) (t : Tables) : Tables :=
  {| tbl_orders := tbl_orders t;
     tbl_transactions := tbl_transactions t;
     tbl_payments := tbl_payments t;
     tbl_ticks := tbl_ticks t;
     tbl_orders_reserved_ticks := tbl_orders_reserved_ticks t;
     tbl_option := tbl_option t;
     tbl_traders := v |}.

(** ** Store computations: state passing with exceptions *)

Definition M (A : Type) : Type := DB → outcome A * DB.

Definition ret {A} (a : A) : M A := λ db, (Return a, db).

Definition raise {A} (e : exn) : M A := λ db, (Raise e, db).

Definition bind {A B} (m : M A) (k : A → M B) : M B := λ db,
  match m db with
  | (Return a, db') => k a db'
  | (Raise e, db') => (Raise e, db')
  end.

Notation "'do' x <- m ; k" := (bind m (λ x, k))
  (at level 10, x name, m at level 100, k at level 200).
Notation "'do_' m ; k" := (bind m (λ _, k))
  (at level 10, m at level 100, k at level 200).

(** [for x in xs: body(x)] *)
Fixpoint for_each {A} (xs : list A) (body : A → M unit) : M unit :=
  match xs with
  | [] => ret tt
  | x :: xs' => do_ body x; for_each xs' body
  end.

(** ** The storage engine

    Modelled from the spec: [execute], [commit] and [executescript] are
    inherited through [TrustChainDB] (anydex.trustchain.database), whose source
    is not part of this development; the spec's "underlying storage engine
    exposing execute/commit/script-execution primitives".  They follow
    SQLite as driven by Python's sqlite3 module: a statement changes the
    working copy or, when it fails, changes nothing and raises; [commit] makes
    the working copy durable. *)

(** A table handle: how to read and replace one table, and its primary key. *)
Record table (R K : Type) := Table {
  tbl_rows : Tables → option (list R);
  tbl_put : list R → Tables → Tables;
  tbl_key : R → K }.
Arguments Table {R K} _ _ _.
Arguments tbl_rows {R K} _ _.
Arguments tbl_put {R K} _ _ _.
Arguments tbl_key {R K} _ _.

Definition commit : M unit := λ db,
  (Return tt, {| work := work db; durable := work db |}).

Section Statements.
Context {R K : Type} `{EqDecision K} (T : table R K).

(** INSERT INTO T VALUES r *)
Definition sql_insert (r : R) : M unit := λ db,
  match tbl_rows T (work db) with
  | None => (Raise OperationalError, db)
  | Some rows =>
      if decide (tbl_key T r ∈ tbl_key T <$> rows)
      then (Raise IntegrityError, db)
      else (Return tt, set_work (tbl_put T (rows ++ [r])) db)
  end.

(** INSERT OR IGNORE INTO T VALUES r *)
Definition sql_insert_or_ignore (r : R) : M unit := λ db,
  match tbl_rows T (work db) with
  | None => (Raise OperationalError, db)
  | Some rows =>
      if decide (tbl_key T r ∈ tbl_key T <$> rows)
      then (Return tt, db)
      else (Return tt, set_work (tbl_put T (rows ++ [r])) db)
  end.

(** INSERT OR REPLACE INTO T VALUES r *)
Definition sql_insert_or_replace (r : R) : M unit := λ db,
  match tbl_rows T (work db) with
  | None => (Raise OperationalError, db)
  | Some rows =>
      (Return tt,
       set_work (tbl_put T (filter (λ r', tbl_key T r' ≠ tbl_key T r) rows ++ [r])) db)
  end.

(** DELETE FROM T WHERE P *)
Definition sql_delete (P : R → Prop) `{∀ r, Decision (P r)} : M unit := λ db,
  match tbl_rows T (work db) with
  | None => (Raise OperationalError, db)
  | Some rows => (Return tt, set_work (tbl_put T (filter (λ r, ¬ P r) rows)) db)
  end.

(** UPDATE T SET f WHERE P, for an [f] that leaves the key columns alone *)
Definition sql_update (P : R → Prop) `{∀ r, Decision (P r)} (f : R → R) : M unit := λ db,
  match tbl_rows T (work db) with
  | None => (Raise OperationalError, db)
  | Some rows =>
      (Return tt, set_work (tbl_put T ((λ r, if decide (P r) then f r else r) <$> rows)) db)
  end.

(** SELECT * FROM T WHERE P *)
Definition sql_select (P : R → Prop) `{∀ r, Decision (P r)} : M (list R) := λ db,
  match tbl_rows T (work db) with
  | None => (Raise OperationalError, db)
  | Some rows => (Return (filter P rows), db)
  end.
End Statements.

(** The tables of [schema] with their PRIMARY KEY clauses. *)
Definition orders : table OrderRow (bytes * Z) :=
  Table tbl_orders (λ rows, set_orders (Some rows))
        (λ r, (ord_trader_id r, ord_order_number r)).

Definition transactions : table TransactionRow bytes :=
  Table tbl_transactions (λ rows, set_transactions (Some rows))
        tx_transaction_id.

Definition payments : table PaymentRow (bytes * string * bytes) :=
  Table tbl_payments (λ rows, set_payments (Some rows))
        (λ r, (pay_trader_id r, pay_payment_id r, pay_transaction_id r)).

Definition ticks : table TickRow (bytes * Z) :=
  Table tbl_ticks (λ rows, set_ticks (Some rows))
        (λ r, (tick_trader_id r, tick_order_number r)).

Definition orders_reserved_ticks : table ReservedTickRow (bytes * Z * bytes * Z) :=
  Table tbl_orders_reserved_ticks (λ rows, set_orders_reserved_ticks (Some rows))
        (λ r, (res_trader_id r, res_order_number r,
               res_reserved_trader_id r, res_reserved_order_number r)).

Definition option_table : table OptionRow string :=
  Table tbl_option (λ rows, set_option (Some rows)) opt_key.

(** ** Entities

    Modelled from the spec: the classes [OrderId], [Order], [Transaction] and
    [Payment] (anydex.core.order, .transaction, .payment) are not part of this
    development.  Following the spec's data model an entity is its storage row
    plus the child collection it owns; [to_database] yields the row and
    [from_database] rebuilds the entity from a row and its children. *)

Record OrderId := {
  trader_id : bytes;
  order_number : Z }.

Record Order := {
  order_row : OrderRow;
  reserved_ticks : list (OrderId * Z) }.   (* dict: OrderId -> quantity, in insertion order *)

Definition order_id (order : Order) : OrderId :=
  {| trader_id := ord_trader_id (order_row order);
     order_number := ord_order_number (order_row order) |}.

Definition Payment := PaymentRow.

Record Transaction := {
  transaction_row : TransactionRow;
  transaction_payments : list Payment }.

Definition transaction_id (transaction : Transaction) : bytes :=
  tx_transaction_id (transaction_row transaction).

Definition timestamp (transaction : Transaction) : Z :=
  tx_transaction_timestamp (transaction_row transaction).

Definition Order_from_database (db_result : OrderRow) (rt : list (OrderId * Z)) : Order :=
  {| order_row := db_result; reserved_ticks := rt |}.

Definition Transaction_from_database (db_result : TransactionRow) (ps : list Payment) : Transaction :=
  {| transaction_row := db_result; transaction_payments := ps |}.

(** ** PaymentId (payment_id.py) *)

Module PaymentId.
Record t := { _payment_id : string }.

Definition init (payment_id : pyval) : outcome t :=
  match payment_id with
  | PyStr s => Return {| _payment_id := s |}
  | _ => Raise TypeError
  end.

Definition payment_id (self : t) : string := _payment_id self.

(** What [__eq__] is handed: another PaymentId or any other object. *)
Inductive object :=
| Instance_ (other : t)
| Other (v : pyval).

(** What a rich comparison returns. *)
Inductive comparison :=
| Bool (b : bool)
| NotImplemented.

(** [bool(x)]: NotImplemented is a truthy object. *)
Definition truth (x : comparison) : bool :=
  match x with
  | Bool b => b
  | NotImplemented => true
  end.

Definition __str__ (self : t) : string := _payment_id self.

Definition __eq__ (self : t) (other : object) : comparison :=
  match other with
  | Instance_ other => Bool (bool_decide (_payment_id self = payment_id other))
  | Other _ => NotImplemented
  end.

Definition __ne__ (self : t) (other : object) : bool :=
  negb (truth (__eq__ self other)).

Section Hash.
(** The builtin [hash] on strings. *)
Variable hash : string → Z.

Definition __hash__ (self : t) : Z := hash (_payment_id self).
End Hash.
End PaymentId.

(** ** MarketDB (database.py) *)

Definition LATEST_DB_VERSION : Z := 5.

(** *** Orders and reserved ticks *)

Definition of_order (id : OrderId) (r : OrderRow) : Prop :=
  ord_trader_id r = trader_id id ∧ ord_order_number r = order_number id.

Definition reserved_by (id : OrderId) (r : ReservedTickRow) : Prop :=
  res_trader_id r = trader_id id ∧ res_order_number r = order_number id.

#[global] Instance of_order_dec id r : Decision (of_order id r).
Proof. unfold of_order. apply _. Defined.

#[global] Instance reserved_by_dec id r : Decision (reserved_by id r).
Proof. unfold reserved_by. apply _. Defined.

(** Key order of an index: BLOB values compare bytewise, INTEGER values
    numerically, column after column. *)
Definition bytes_lt (a b : bytes) : Prop := String.le a b ∧ a ≠ b.

Definition id_le (a b : bytes * Z) : Prop :=
  bytes_lt a.1 b.1 ∨ (a.1 = b.1 ∧ a.2 ≤ b.2).

Definition id_lt (a b : bytes * Z) : Prop :=
  bytes_lt a.1 b.1 ∨ (a.1 = b.1 ∧ a.2 < b.2).

(** The order of the PRIMARY KEY index of [orders_reserved_ticks]. *)
Definition index_order (r r' : ReservedTickRow) : Prop :=
  id_lt (res_trader_id r, res_order_number r) (res_trader_id r', res_order_number r') ∨
  ((res_trader_id r, res_order_number r) = (res_trader_id r', res_order_number r') ∧
   id_le (res_reserved_trader_id r, res_reserved_order_number r)
         (res_reserved_trader_id r', res_reserved_order_number r')).

#[global] Instance index_order_dec r r' : Decision (index_order r r').
Proof. unfold index_order, id_lt, id_le, bytes_lt. apply _. Defined.

(** The WHERE clause fixes a prefix of the primary key, so SQLite answers the
    query from the primary-key index and the rows come back in key order, not
    in insertion order. *)
Definition get_reserved_ticks (order_id : OrderId) : M (list (OrderId * Z)) :=
  do db_results <- sql_select orders_reserved_ticks (reserved_by order_id);
  let db_results := merge_sort index_order db_results in
  ret ((λ data, ({| trader_id := res_reserved_trader_id data;
                    order_number := res_reserved_order_number data |},
                 res_quantity data)) <$> db_results).

Definition get_order (order_id : OrderId) : M (option Order) :=
  do db_result <- sql_select orders (of_order order_id);
  match db_result with
  | [] => ret None                                         (* StopIteration *)
  | db_result :: _ =>
      do rt <- get_reserved_ticks order_id;
      ret (Some (Order_from_database db_result rt))
  end.

Definition add_reserved_tick (order_id reserved_order_id : OrderId) (amount : Z) : M unit :=
  do_ sql_insert orders_reserved_ticks
        {| res_trader_id := trader_id order_id;
           res_order_number := order_number order_id;
           res_reserved_trader_id := trader_id reserved_order_id;
           res_reserved_order_number := order_number reserved_order_id;
           res_quantity := amount |};
  commit.

Definition add_order (order : Order) : M unit :=
  do_ sql_insert orders (order_row order);
  do_ commit;
  (* Add reserved ticks *)
  for_each (reserved_ticks order)
    (λ item, add_reserved_tick (order_id order) item.1 item.2).

Definition delete_reserved_ticks (order_id : OrderId) : M unit :=
  sql_delete orders_reserved_ticks (reserved_by order_id).

Definition delete_order (order_id : OrderId) : M unit :=
  do_ sql_delete orders (of_order order_id);
  delete_reserved_ticks order_id.

(** SELECT MAX(c): NULL over no rows. *)
Definition sql_max (xs : list Z) : option Z :=
  match xs with
  | [] => None
  | x :: xs' => Some (fold_left Z.max xs' x)
  end.

(** [not highest_order_number[0]] holds for [None] and for [0]. *)
Definition get_next_order_number : M Z :=
  do rows <- sql_select orders (λ _, True);
  let highest_order_number := sql_max (ord_order_number <$> rows) in
  match highest_order_number with
  | None => ret 1
  | Some n => if decide (n = 0) then ret 1 else ret (n + 1)
  end.

(** *** Transactions and payments *)

Definition of_transaction (id : bytes) (r : PaymentRow) : Prop :=
  pay_transaction_id r = id.

Definition by_timestamp (p q : PaymentRow) : Prop :=
  pay_timestamp p ≤ pay_timestamp q.

#[global] Instance of_transaction_dec id r : Decision (of_transaction id r).
Proof. unfold of_transaction. apply _. Defined.

#[global] Instance by_timestamp_dec p q : Decision (by_timestamp p q).
Proof. unfold by_timestamp. apply _. Defined.

(** ... WHERE transaction_id = ? ORDER BY timestamp ASC *)
Definition get_payments (transaction_id : bytes) : M (list Payment) :=
  do db_result <- sql_select payments (of_transaction transaction_id);
  ret (merge_sort by_timestamp db_result).

Definition delete_payments (transaction_id : bytes) : M unit :=
  sql_delete payments (of_transaction transaction_id).

Definition add_payment (payment : Payment) : M unit :=
  do_ sql_insert payments payment;
  commit.

Definition get_transaction (transaction_id : bytes) : M (option Transaction) :=
  do db_result <- sql_select transactions (λ r, tx_transaction_id r = transaction_id);
  match db_result with
  | [] => ret None                                         (* StopIteration *)
  | db_result :: _ =>
      do ps <- get_payments transaction_id;
      ret (Some (Transaction_from_database db_result ps))
  end.

Definition add_transaction (transaction : Transaction) : M unit :=
  do_ sql_insert transactions (transaction_row transaction);
  do_ commit;
  do_ delete_payments (transaction_id transaction);
  for_each (transaction_payments transaction) add_payment.

(** SET asset1_amount = ?, asset1_transferred = ?, asset2_amount = ?,
    asset2_transferred = ?, transaction_timestamp = ? *)
Definition set_amounts (transaction : Transaction) (r : TransactionRow) : TransactionRow :=
  {| tx_trader_id := tx_trader_id r;
     tx_transaction_id := tx_transaction_id r;
     tx_order_number := tx_order_number r;
     tx_partner_trader_id := tx_partner_trader_id r;
     tx_partner_order_number := tx_partner_order_number r;
     tx_asset1_amount := tx_asset1_amount (transaction_row transaction);
     tx_asset1_type := tx_asset1_type r;
     tx_asset1_transferred := tx_asset1_transferred (transaction_row transaction);
     tx_asset2_amount := tx_asset2_amount (transaction_row transaction);
     tx_asset2_type := tx_asset2_type r;
     tx_asset2_transferred := tx_asset2_transferred (transaction_row transaction);
     tx_transaction_timestamp := timestamp transaction;
     tx_sent_wallet_info := tx_sent_wallet_info r;
     tx_received_wallet_info := tx_received_wallet_info r;
     tx_incoming_address := tx_incoming_address r;
     tx_outgoing_address := tx_outgoing_address r;
     tx_partner_incoming_address := tx_partner_incoming_address r;
     tx_partner_outgoing_address := tx_partner_outgoing_address r |}.

(** WHERE transaction_id = ? AND transaction_timestamp < ? *)
Definition stale_for (transaction : Transaction) (r : TransactionRow) : Prop :=
  tx_transaction_id r = transaction_id transaction ∧
  tx_transaction_timestamp r < timestamp transaction.

#[global] Instance stale_for_dec t r : Decision (stale_for t r).
Proof. unfold stale_for. apply _. Defined.

Definition insert_or_update_transaction (transaction : Transaction) : M unit :=
  do_ sql_insert_or_ignore transactions (transaction_row transaction);
  do_ sql_update transactions (stale_for transaction) (set_amounts transaction);
  commit.

Definition delete_transaction (transaction_id : bytes) : M unit :=
  do_ sql_delete transactions (λ r, tx_transaction_id r = transaction_id);
  delete_payments transaction_id.

(** *** Ticks *)

Definition add_tick (tick : TickRow) : M unit :=
  do_ sql_insert ticks tick;
  commit.

Definition delete_all_ticks : M unit :=
  sql_delete ticks (λ _, True).

Definition get_ticks : M (list TickRow) :=
  sql_select ticks (λ _, True).

(** *** Schema and upgrade scripts

    A script is the list of its statements. *)

Inductive table_name :=
| T_orders
| T_transactions
| T_payments
| T_ticks
| T_orders_reserved_ticks
| T_option
| T_traders.

Inductive statement :=
| DROP_TABLE_IF_EXISTS (n : table_name)
| CREATE_TABLE_IF_NOT_EXISTS (n : table_name)
| INSERT_OR_REPLACE_INTO_option (key value : string).

Definition drop_table (n : table_name) : Tables → Tables :=
  match n with
  | T_orders => set_orders None
  | T_transactions => set_transactions None
  | T_payments => set_payments None
  | T_ticks => set_ticks None
  | T_orders_reserved_ticks => set_orders_reserved_ticks None
  | T_option => set_option None
  | T_traders => set_traders None
  end.

Definition if_not_exists {R} (v : option (list R)) : option (list R) :=
  match v with
  | None => Some []
  | Some rows => Some rows
  end.

Definition create_table (n : table_name) (t : Tables) : Tables :=
  match n with
  | T_orders => set_orders (if_not_exists (tbl_orders t)) t
  | T_transactions => set_transactions (if_not_exists (tbl_transactions t)) t
  | T_payments => set_payments (if_not_exists (tbl_payments t)) t
  | T_ticks => set_ticks (if_not_exists (tbl_ticks t)) t
  | T_orders_reserved_ticks =>
      set_orders_reserved_ticks (if_not_exists (tbl_orders_reserved_ticks t)) t
  | T_option => set_option (if_not_exists (tbl_option t)) t
  | T_traders => set_traders (if_not_exists (tbl_traders t)) t
  end.

Definition execute_statement (st : statement) : M unit :=
  match st with
  | DROP_TABLE_IF_EXISTS n => λ db, (Return tt, set_work (drop_table n) db)
  | CREATE_TABLE_IF_NOT_EXISTS n => λ db, (Return tt, set_work (create_table n) db)
  | INSERT_OR_REPLACE_INTO_option key value =>
      sql_insert_or_replace option_table {| opt_key := key; opt_value := value |}
  end.

(** Modelled from the spec: [executescript] of the storage engine (see above).
    As sqlite3 does, it commits what is pending and then runs the statements
    outside a transaction, so each one is durable once it has run. *)
Definition executescript (script : list statement) : M unit :=
  do_ commit;
  for_each script (λ st, do_ execute_statement st; commit).

Definition schema : list statement :=
  [ CREATE_TABLE_IF_NOT_EXISTS T_orders;
    CREATE_TABLE_IF_NOT_EXISTS T_transactions;
    CREATE_TABLE_IF_NOT_EXISTS T_payments;
    CREATE_TABLE_IF_NOT_EXISTS T_ticks;
    CREATE_TABLE_IF_NOT_EXISTS T_orders_reserved_ticks;
    CREATE_TABLE_IF_NOT_EXISTS T_option;
    INSERT_OR_REPLACE_INTO_option "database_version" (pretty LATEST_DB_VERSION) ].

Definition get_schema : list statement := schema.

Definition drop_all : list statement :=
  [ DROP_TABLE_IF_EXISTS T_orders;
    DROP_TABLE_IF_EXISTS T_transactions;
    DROP_TABLE_IF_EXISTS T_payments;
    DROP_TABLE_IF_EXISTS T_ticks;
    DROP_TABLE_IF_EXISTS T_orders_reserved_ticks;
    DROP_TABLE_IF_EXISTS T_option;
    DROP_TABLE_IF_EXISTS T_traders ].

(** Falls off the end, returning [None], for every other version. *)
Definition get_upgrade_script (current_version : Z) : option (list statement) :=
  if decide (current_version = 1 ∨ current_version = 2 ∨
             current_version = 3 ∨ current_version = 4)
  then Some drop_all
  else None.

(** [bytes.isdigit]: every byte is an ASCII decimal digit and there is at least
    one byte. *)
Definition is_ascii_digit (c : ascii) : bool :=
  let n := Z.of_N (N_of_ascii c) in (48 <=? n) && (n <=? 57).

Fixpoint all_ascii_digits (b : bytes) : bool :=
  match b with
  | EmptyString => true
  | String c b' => is_ascii_digit c && all_ascii_digits b'
  end.

Definition isdigit (b : bytes) : bool :=
  match b with
  | EmptyString => false
  | _ => all_ascii_digits b
  end.

(** [int(b)] on a [bytes] that passed [isdigit]: its decimal value, leading
    zeros allowed, with no bound on the number of digits. *)
Fixpoint int_digits (acc : Z) (b : bytes) : Z :=
  match b with
  | EmptyString => acc
  | String c b' => int_digits (10 * acc + (Z.of_N (N_of_ascii c) - 48)) b'
  end.

Definition int (b : bytes) : Z := int_digits 0 b.

(** [if upgrade_script: self.executescript(upgrade_script)] *)
Definition run_upgrade_script (current_version : Z) : M unit :=
  match get_upgrade_script current_version with
  | Some upgrade_script => executescript upgrade_script
  | None => ret tt
  end.

(** [while database_version < LATEST_DB_VERSION: ...; database_version += 1] *)
Equations? upgrade_loop (database_version : Z) (db : DB) : outcome unit * DB
  by wf (Z.to_nat (LATEST_DB_VERSION - database_version)) lt :=
  upgrade_loop database_version db with decide (database_version < LATEST_DB_VERSION) => {
    | left _ with run_upgrade_script database_version db => {
        | (Return _, db') => upgrade_loop (database_version + 1) db'
        | (Raise e, db') => (Raise e, db') }
    | right _ => (Return tt, db) }.
Proof. lia. Qed.

Section CheckDatabase.
(** [self.LATEST_DB_VERSION] is a class attribute inherited from
    [TrustChainDB], whose source is not part of this development; only the
    module constant [LATEST_DB_VERSION] is defined in database.py. *)
Variable self_LATEST_DB_VERSION : Z.

(** The body below the assertions, on the converted version. *)
Definition upgrade_to_latest (database_version : Z) : M Z :=
  do_ (if decide (database_version < self_LATEST_DB_VERSION)
       then
         do_ upgrade_loop database_version;
         do_ executescript get_schema;
         commit
       else ret tt);
  ret LATEST_DB_VERSION.

Definition check_database (database_version : pyval) : M Z :=
  match database_version with
  | PyBytes b =>                                  (* assert isinstance(.., bytes) *)
      if negb (isdigit b) then raise AssertionError
      else if negb (0 <=? int b) then raise AssertionError
      else upgrade_to_latest (int b)
  | _ => raise AssertionError
  end.
End CheckDatabase.

(** The store right after [schema] ran on an empty file. *)
Definition created : Tables :=
  {| tbl_orders := Some [];
     tbl_transactions := Some [];
     tbl_payments := Some [];
     tbl_ticks := Some [];
     tbl_orders_reserved_ticks := Some [];
     tbl_option :=
       Some [{| opt_key := "database_version"; opt_value := pretty LATEST_DB_VERSION |}];
     tbl_traders := None |}.

(** The persisted version marker: the value under [database_version]. *)
Definition version_marker (t : Tables) : option string :=
  rows ← tbl_option t;
  opt_value <$> head (filter (λ r, opt_key r = "database_version"%string) rows).

(** What the UPDATE of [insert_or_update_transaction] makes of a stored row. *)
Definition updated_by (transaction : Transaction) (r : TransactionRow) : TransactionRow :=
  if decide (stale_for transaction r) then set_amounts transaction r else r.

(** The row [add_reserved_tick] inserts for one entry of a reservation set. *)
Definition reservation_row (order_id : OrderId) (item : OrderId * Z) : ReservedTickRow :=
  {| res_trader_id := trader_id order_id;
     res_order_number := order_number order_id;
     res_reserved_trader_id := trader_id item.1;
     res_reserved_order_number := order_number item.1;
     res_quantity := item.2 |}.

(** The entry [get_reserved_ticks] makes of a stored reservation row. *)
Definition reserved_item (data : ReservedTickRow) : OrderId * Z :=
  ({| trader_id := res_reserved_trader_id data;
      order_number := res_reserved_order_number data |},
   res_quantity data).

(** Entries of a reservation set in the key order of their counterpart ids. *)
Definition by_reserved_id (a b : OrderId * Z) : Prop :=
  id_le (trader_id a.1, order_number a.1) (trader_id b.1, order_number b.1).

(** The rows of a table, none when the table does not exist. *)
Definition rows_of {R} (v : option (list R)) : list R := default [] v.

(** "One all-or-nothing durable unit of work": whatever the outcome of
    [add_order], the durable state afterwards is the prior one or holds the
    order row together with the row of every entry of the reservation set. *)
Definition add_order_all_or_nothing (order : Order) (db : DB) : Prop :=
  let db' := (add_order order db).2 in
  durable db' = durable db ∨
  (order_row order ∈ rows_of (tbl_orders (durable db')) ∧
   ∀ item, item ∈ reserved_ticks order →
     reservation_row (order_id order) item
       ∈ rows_of (tbl_orders_reserved_ticks (durable db'))).

(** ** Sample data for the concrete runs below *)

Module Sample.
Definition db0 : DB := {| work := created; durable := created |}.

Definition an_order_row (trader : bytes) (number : Z) : OrderRow :=
  {| ord_trader_id := trader; ord_order_number := number;
     ord_asset1_amount := 10; ord_asset1_type := "BTC";
     ord_asset2_amount := 20; ord_asset2_type := "MB";
     ord_traded_quantity := 0; ord_received_quantity := 0;
     ord_timeout := 3600; ord_order_timestamp := 1000;
     ord_completed_timestamp := None;
     ord_is_ask := true; ord_cancelled := false; ord_verified := true |}.

Definition an_order (trader : bytes) (number : Z) (rt : list (OrderId * Z)) : Order :=
  {| order_row := an_order_row trader number; reserved_ticks := rt |}.

Definition alice_1 : OrderId := {| trader_id := "alice"; order_number := 1 |}.
Definition bob_4 : OrderId := {| trader_id := "bob"; order_number := 4 |}.
Definition bob_9 : OrderId := {| trader_id := "bob"; order_number := 9 |}.

Definition a_payment (pid : string) (txid : bytes) (ts : Z) : Payment :=
  {| pay_trader_id := "alice"; pay_transaction_id := txid; pay_payment_id := pid;
     pay_transferred_amount := 5; pay_transferred_type := "BTC";
     pay_address_from := "a"; pay_address_to := "b"; pay_timestamp := ts |}.

Definition a_transaction (txid : bytes) (transferred ts : Z) (ps : list Payment)
  : Transaction :=
  {| transaction_row :=
       {| tx_trader_id := "alice"; tx_transaction_id := txid; tx_order_number := 1;
          tx_partner_trader_id := "bob"; tx_partner_order_number := 4;
          tx_asset1_amount := 10; tx_asset1_type := "BTC";
          tx_asset1_transferred := transferred;
          tx_asset2_amount := 20; tx_asset2_type := "MB";
          tx_asset2_transferred := 2 * transferred;
          tx_transaction_timestamp := ts;
          tx_sent_wallet_info := false; tx_received_wallet_info := false;
          tx_incoming_address := "in"; tx_outgoing_address := "out";
          tx_partner_incoming_address := "pin";
          tx_partner_outgoing_address := "pout" |};
     transaction_payments := ps |}.

(** The state a computation leaves behind, whatever its outcome. *)
Definition after {A} (m : M A) (db : DB) : DB := (m db).2.

(** An order of alice with two reservations. *)
Definition o : Order := an_order "alice" 1 [(bob_4, 7); (bob_9, 3)].
Definition db_o : DB := after (add_order o) db0.

(** A reservation row stored on its own, before any order. *)
Definition db_orphan : DB := after (add_reserved_tick alice_1 bob_9 5) db0.

Definition p1 : Payment := a_payment "p1" "tx" 1.
Definition p2 : Payment := a_payment "p2" "tx" 2.
Definition p3 : Payment := a_payment "p3" "tx" 3.
Definition p_old : Payment := a_payment "old" "tx" 9.

Definition t1 : Transaction := a_transaction "tx" 1 100 [p1].
Definition t2 : Transaction := a_transaction "tx" 4 200 [].

(** A later state of transaction tx that differs from [t1] in every column
    but the id, and the same state under a timestamp that is not later. *)
Definition a_row_apart (ts : Z) : TransactionRow :=
  {| tx_trader_id := "carol"; tx_transaction_id := "tx"; tx_order_number := 8;
     tx_partner_trader_id := "dave"; tx_partner_order_number := 5;
     tx_asset1_amount := 11; tx_asset1_type := "ETH";
     tx_asset1_transferred := 6;
     tx_asset2_amount := 22; tx_asset2_type := "DUM";
     tx_asset2_transferred := 9;
     tx_transaction_timestamp := ts;
     tx_sent_wallet_info := true; tx_received_wallet_info := true;
     tx_incoming_address := "in2"; tx_outgoing_address := "out2";
     tx_partner_incoming_address := "pin2";
     tx_partner_outgoing_address := "pout2" |}.
Definition t_newer : Transaction :=
  {| transaction_row := a_row_apart 200; transaction_payments := [] |}.
Definition t_not_newer : Transaction :=
  {| transaction_row := a_row_apart 100; transaction_payments := [] |}.
Definition db_t1 : DB := after (add_transaction t1) db0.

(** Payments attached out of timestamp order, over a stored payment. *)
Definition t_unsorted : Transaction := a_transaction "tx" 1 100 [p1; p3; p2].
Definition db_old : DB := after (add_payment p_old) db0.
Definition db_unsorted : DB := after (add_transaction t_unsorted) db_old.

(** A store with rows in several tables. *)
Definition db_rows : DB :=
  after (do_ add_order (an_order "alice" 1 [(bob_4, 7)]);
         do_ add_transaction t1;
         add_tick {| tick_trader_id := "bob"; tick_order_number := 4;
                     tick_asset1_amount := 1; tick_asset1_type := "BTC";
                     tick_asset2_amount := 2; tick_asset2_type := "MB";
                     tick_timeout := 60; tick_timestamp := 7;
                     tick_is_ask := false; tick_traded := 0;
                     tick_block_hash := "h" |}) db0.

(** A store with an insert that is not committed yet. *)
Definition db_pending : DB := after (sql_insert orders (an_order_row "alice" 1)) db0.

(** A store whose persisted version marker is 6. *)
Definition db_v6 : DB :=
  after (do_ sql_insert_or_replace option_table
               {| opt_key := "database_version"; opt_value := "6" |};
         commit) db_rows.

(** A second order, of bob, reserved against alice's. *)
Definition o2 : Order := an_order "bob" 4 [(alice_1, 2)].

(** An order whose reservation set was filled against the key order. *)
Definition o_rev : Order := an_order "carol" 2 [(bob_9, 3); (bob_4, 7)].

(** A later update of transaction tx, and transactions under other ids. *)
Definition t3 : Transaction := a_transaction "tx" 6 300 [].
Definition t_sorted : Transaction :=
  a_transaction "tx2" 1 100 [a_payment "p1" "tx2" 1; a_payment "p2" "tx2" 2].
Definition t_bare : Transaction := a_transaction "tx" 1 100 [].

Definition a_tick (trader : bytes) (number : Z) : TickRow :=
  {| tick_trader_id := trader; tick_order_number := number;
     tick_asset1_amount := 1; tick_asset1_type := "BTC";
     tick_asset2_amount := 2; tick_asset2_type := "MB";
     tick_timeout := 60; tick_timestamp := 7;
     tick_is_ask := false; tick_traded := 0;
     tick_block_hash := "h" |}.
Definition db_tick : DB := after (add_tick (a_tick "bob" 4)) db0.

(** A stand-in for the builtin hash, and two PaymentIds built alike. *)
Definition a_hash (s : string) : Z := Z.of_nat (String.length s).
Definition pid_abc : PaymentId.t := {| PaymentId._payment_id := "abc" |}.
Definition pid_abc' : PaymentId.t := {| PaymentId._payment_id := "ab" +:+ "c" |}.

(** Orders numbered 3, 7 and 2, of two traders. *)
Definition db_372 : DB :=
  after (do_ add_order (an_order "alice" 3 []);
         do_ add_order (an_order "bob" 7 []);
         add_order (an_order "alice" 2 [])) db0.
End Sample.

(** "Digits-only": at least one character, each of them a decimal digit. *)
Definition digits_only (b : bytes) : Prop :=
  b ≠ EmptyString ∧
  ∀ c, c ∈ String.list_ascii_of_string b → c ∈ String.list_ascii_of_string "0123456789".

(** * Properties *)

(** ** Running store computations *)

Lemma bind_Return {A B} (m : M A) (k : A → M B) db a db' :
  m db = (Return a, db') → bind m k db = k a db'.
Proof. unfold bind. intros ->. reflexivity. Qed.

Lemma bind_Raise {A B} (m : M A) (k : A → M B) db e db' :
  m db = (Raise e, db') → bind m k db = (Raise e, db').
Proof. unfold bind. intros ->. reflexivity. Qed.

Lemma set_orders_id t : set_orders (tbl_orders t) t = t.
Proof. destruct t; reflexivity. Qed.

Lemma set_orders_reserved_ticks_id t :
  set_orders_reserved_ticks (tbl_orders_reserved_ticks t) t = t.
Proof. destruct t; reflexivity. Qed.

Lemma set_transactions_id t : set_transactions (tbl_transactions t) t = t.
Proof. destruct t; reflexivity. Qed.

Lemma set_work_id (f : Tables → Tables) db : f (work db) = work db → set_work f db = db.
Proof. destruct db; unfold set_work; simpl. intros ->. reflexivity. Qed.

(** ** PaymentId *)

(** C9, refuted as stated: constructing a PaymentId from the empty string
    succeeds. *)
Lemma PaymentId_init_accepts_empty :
  ∃ p, PaymentId.init (PyStr "") = Return p ∧ PaymentId.payment_id p = ""%string.
Proof. eexists. split; reflexivity. Qed.

(** C9, amended: construction succeeds exactly for the strings, the empty one
    included, keeping the string as it is; for every other value it raises
    TypeError. *)
Theorem PaymentId_init_checks_type_only (v : pyval) :
  (∀ p, PaymentId.init v = Return p ↔ v = PyStr (PaymentId.payment_id p)) ∧
  ((∃ s, v = PyStr s) ∨ PaymentId.init v = Raise TypeError).
Proof.
  split.
  - intros [s]. destruct v; simpl; split; intros H; try discriminate; congruence.
  - destruct v; simpl; eauto.
Qed.

(** ** check_database *)

Lemma all_ascii_digits_int_digits b acc :
  all_ascii_digits b = true → 0 ≤ acc → 0 ≤ int_digits acc b.
Proof.
  revert acc. induction b as [|c b IH]; simpl; intros acc Hd Hacc; [done|].
  apply andb_prop in Hd as [Hc Hb]. apply IH; [done|].
  unfold is_ascii_digit in Hc. apply andb_prop in Hc as [Hlo _].
  apply Z.leb_le in Hlo. lia.
Qed.

Lemma isdigit_int_nonneg b : isdigit b = true → 0 ≤ int b.
Proof.
  intros Hd. apply all_ascii_digits_int_digits; [|done].
  destruct b; [discriminate|exact Hd].
Qed.

Lemma check_database_digits P b :
  isdigit b = true → check_database P (PyBytes b) = upgrade_to_latest P (int b).
Proof.
  intros Hd. unfold check_database. rewrite Hd. simpl.
  apply isdigit_int_nonneg, Z.leb_le in Hd. rewrite Hd. reflexivity.
Qed.

Lemma LATEST_DB_VERSION_str : pretty LATEST_DB_VERSION = "5"%string.
Proof. reflexivity. Qed.

Lemma executescript_drop_all db :
  executescript drop_all db =
  (Return tt,
   let dropped :=
     {| tbl_orders := None; tbl_transactions := None; tbl_payments := None;
        tbl_ticks := None; tbl_orders_reserved_ticks := None; tbl_option := None;
        tbl_traders := None |} in
   {| work := dropped; durable := dropped |}).
Proof. reflexivity. Qed.

Lemma executescript_schema_returns db :
  ∃ db', executescript get_schema db = (Return tt, db') ∧ durable db' = work db'.
Proof.
  destruct db as [[o t p k r [op|] tr] d]; eexists; split; reflexivity.
Qed.

Lemma run_upgrade_script_returns v db :
  ∃ db', run_upgrade_script v db = (Return tt, db').
Proof.
  unfold run_upgrade_script, get_upgrade_script.
  case_decide; eexists; [apply executescript_drop_all | reflexivity].
Qed.

Lemma upgrade_loop_returns v db :
  ∃ db', upgrade_loop v db = (Return tt, db').
Proof.
  funelim (upgrade_loop v db).
  - eauto.
  - assumption.
  - destruct (run_upgrade_script_returns database_version db) as [? ?]. congruence.
Qed.

(** Every version below the latest passes through version 4, whose script
    drops everything. *)
Lemma upgrade_loop_legacy v db :
  0 ≤ v < LATEST_DB_VERSION →
  upgrade_loop v db =
  (Return tt,
   let dropped :=
     {| tbl_orders := None; tbl_transactions := None; tbl_payments := None;
        tbl_ticks := None; tbl_orders_reserved_ticks := None; tbl_option := None;
        tbl_traders := None |} in
   {| work := dropped; durable := dropped |}).
Proof.
  unfold LATEST_DB_VERSION. intros Hv.
  assert (v = 0 ∨ v = 1 ∨ v = 2 ∨ v = 3 ∨ v = 4) as Hcases by lia.
  destruct Hcases as [->|[->|[->|[->| ->]]]]; reflexivity.
Qed.

Lemma upgrade_loop_latest v db :
  LATEST_DB_VERSION ≤ v → upgrade_loop v db = (Return tt, db).
Proof.
  intros Hv. funelim (upgrade_loop v db); [reflexivity | lia | lia].
Qed.

Lemma is_ascii_digit_spec c :
  is_ascii_digit c = bool_decide (c ∈ String.list_ascii_of_string "0123456789").
Proof. destruct c as [[] [] [] [] [] [] [] []]; reflexivity. Qed.

Lemma all_ascii_digits_spec b :
  all_ascii_digits b = true ↔
  ∀ c, c ∈ String.list_ascii_of_string b → c ∈ String.list_ascii_of_string "0123456789".
Proof.
  induction b as [|c b IH]; simpl.
  - split; [intros _ c Hc; inversion Hc | done].
  - rewrite andb_true_iff, IH, is_ascii_digit_spec, bool_decide_eq_true. split.
    + intros [Hc Hb] c' Hc'. apply elem_of_cons in Hc' as [->|Hc']; auto.
    + intros H. split; [apply H; left | intros c' Hc'; apply H; by right].
Qed.

Lemma isdigit_spec b : isdigit b = true ↔ digits_only b.
Proof.
  unfold digits_only. destruct b as [|c b].
  - simpl. split; [discriminate | intros [H _]; done].
  - unfold isdigit. rewrite all_ascii_digits_spec. split; [intros H; split; done | tauto].
Qed.

(** C8: every input that is not a digits-only bytes value, in particular every
    numeral with a minus sign, fails the assertions; every digits-only input is
    non-negative, passes them, and the check runs to completion. *)
Theorem check_database_precondition (P : Z) (db : DB) :
  (∀ v, ¬ (∃ b, v = PyBytes b ∧ digits_only b) →
        check_database P v db = (Raise AssertionError, db)) ∧
  (∀ b, check_database P (PyBytes (String "-" b)) db = (Raise AssertionError, db)) ∧
  (∀ b, digits_only b →
        0 ≤ int b ∧
        check_database P (PyBytes b) db = upgrade_to_latest P (int b) db ∧
        ∃ db', check_database P (PyBytes b) db = (Return LATEST_DB_VERSION, db')).
Proof.
  split; [|split].
  - intros v Hv. destruct v as [| |s|b]; try reflexivity.
    unfold check_database. destruct (isdigit b) eqn:Hd; [|reflexivity].
    destruct Hv. exists b. split; [done | by apply isdigit_spec].
  - reflexivity.
  - intros b Hb%isdigit_spec. split; [by apply isdigit_int_nonneg|].
    rewrite check_database_digits by done. split; [done|].
    unfold upgrade_to_latest. case_decide; [|by eexists].
    destruct (upgrade_loop_returns (int b) db) as [db1 H1].
    destruct (executescript_schema_returns db1) as (db2 & H2 & _).
    eexists. unfold bind. rewrite H1, H2. reflexivity.
Qed.

Lemma check_database_precondition_witness :
  digits_only "42" ∧
  ∃ db', check_database 5 (PyBytes "42") {| work := created; durable := created |}
         = (Return LATEST_DB_VERSION, db').
Proof.
  assert (digits_only "42") as Hd by (by apply isdigit_spec).
  split; [exact Hd|].
  exact (proj2 (proj2 (proj2 (proj2
    (check_database_precondition 5 {| work := created; durable := created |}))
    "42"%string Hd))).
Defined.

(** C4: from every version below the latest the check drops the five tables
    (each upgrade script there is for versions up to 4 is [drop_all]),
    re-creates the schema and returns the latest version: the five tables
    are empty and the persisted marker is the latest version. *)
Theorem check_database_upgrades_legacy (P : Z) (b : bytes) (db : DB) :
  LATEST_DB_VERSION ≤ P →
  digits_only b → int b < LATEST_DB_VERSION →
  (∀ v s, v ≤ 4 → get_upgrade_script v = Some s →
     s = drop_all ∧
     ∃ db1, executescript s db = (Return tt, db1) ∧
            tbl_orders (durable db1) = None ∧
            tbl_transactions (durable db1) = None ∧
            tbl_payments (durable db1) = None ∧
            tbl_ticks (durable db1) = None ∧
            tbl_orders_reserved_ticks (durable db1) = None) ∧
  ∃ db', check_database P (PyBytes b) db = (Return LATEST_DB_VERSION, db') ∧
         work db' = durable db' ∧
         tbl_orders (durable db') = Some [] ∧
         tbl_transactions (durable db') = Some [] ∧
         tbl_payments (durable db') = Some [] ∧
         tbl_ticks (durable db') = Some [] ∧
         tbl_orders_reserved_ticks (durable db') = Some [] ∧
         version_marker (durable db') = Some (pretty LATEST_DB_VERSION).
Proof.
  intros HP Hb Hv. split.
  - intros v s _ Hs. unfold get_upgrade_script in Hs. case_decide; [|discriminate].
    injection Hs as <-. split; [done|].
    eexists. split; [apply executescript_drop_all|]. simpl. tauto.
  - apply isdigit_spec in Hb. pose proof (isdigit_int_nonneg b Hb) as H0.
    rewrite check_database_digits by done.
    exists {| work := created; durable := created |}.
    split; [|by repeat split].
    unfold upgrade_to_latest. rewrite decide_True by lia.
    unfold bind at 1. unfold bind at 1.
    rewrite upgrade_loop_legacy by lia. reflexivity.
Qed.

(** C10, refuted as stated: with an inherited constant of 8, a check at
    version 5 commits the insert that was pending, and a check at version 6
    sets the persisted marker back from 6 to 5: the store is not left as it
    was. *)
Lemma check_database_at_latest_not_noop :
  digits_only "5" ∧ LATEST_DB_VERSION ≤ int "5" ∧
  check_database 8 (PyBytes "5") Sample.db_pending
    ≠ (Return LATEST_DB_VERSION, Sample.db_pending) ∧
  tbl_orders (durable Sample.db_pending) = Some [] ∧
  tbl_orders (durable (check_database 8 (PyBytes "5") Sample.db_pending).2)
    = Some [Sample.an_order_row "alice" 1] ∧
  digits_only "6" ∧ LATEST_DB_VERSION ≤ int "6" ∧
  version_marker (durable Sample.db_v6) = Some "6"%string ∧
  version_marker (durable (check_database 8 (PyBytes "6") Sample.db_v6).2)
    = Some "5"%string.
Proof.
  split; [by apply isdigit_spec|]. split; [vm_compute; discriminate|].
  split; [vm_compute; discriminate|]. split; [reflexivity|]. split; [reflexivity|].
  split; [by apply isdigit_spec|]. split; [vm_compute; discriminate|].
  split; reflexivity.
Qed.

(** C10, amended: the guard reads the inherited constant.  At that constant
    or above the check changes nothing, pending work included, and returns
    the module's latest version; from the module's latest version up to the
    inherited constant it runs no upgrade script but does run the schema
    script and a commit. *)
Theorem check_database_current_is_noop (P : Z) (b : bytes) (db : DB) :
  digits_only b →
  (P ≤ int b →
     check_database P (PyBytes b) db = (Return LATEST_DB_VERSION, db)) ∧
  (LATEST_DB_VERSION ≤ int b < P →
     check_database P (PyBytes b) db =
     (do_ executescript get_schema; do_ commit; ret LATEST_DB_VERSION) db).
Proof.
  intros Hb. split.
  - intros Hv. apply isdigit_spec in Hb. rewrite check_database_digits by done.
    unfold upgrade_to_latest. rewrite decide_False by lia. reflexivity.
  - intros Hv. apply isdigit_spec in Hb. rewrite check_database_digits by done.
    unfold upgrade_to_latest. rewrite decide_True by lia.
    unfold bind. rewrite upgrade_loop_latest by lia.
    destruct (executescript get_schema db) as [[[]|e] db1]; reflexivity.
Qed.

(** Between the module constant and an inherited constant above it, the guard
    lets the schema script run again, although no upgrade script runs. *)
Lemma check_database_between_constants (P : Z) (b : bytes) (db : DB) :
  digits_only b → LATEST_DB_VERSION ≤ int b < P →
  check_database P (PyBytes b) db =
  (do_ executescript get_schema; do_ commit; ret LATEST_DB_VERSION) db.
Proof.
  intros Hb%isdigit_spec Hv.
  rewrite check_database_digits by done.
  unfold upgrade_to_latest. rewrite decide_True by lia.
  unfold bind. rewrite upgrade_loop_latest by lia.
  destruct (executescript get_schema db) as [[[]|e] db1]; reflexivity.
Qed.

(** ** Statements on a table that exists *)

Section StatementLemmas.
Context {R K : Type} `{EqDecision K} (T : table R K).

Lemma sql_select_rows (P : R → Prop) `{∀ r, Decision (P r)} db rows :
  tbl_rows T (work db) = Some rows →
  sql_select T P db = (Return (filter P rows), db).
Proof. unfold sql_select. intros ->. reflexivity. Qed.

Lemma sql_delete_rows (P : R → Prop) `{∀ r, Decision (P r)} db rows :
  tbl_rows T (work db) = Some rows →
  sql_delete T P db =
  (Return tt, set_work (tbl_put T (filter (λ r, ¬ P r) rows)) db).
Proof. unfold sql_delete. intros ->. reflexivity. Qed.

Lemma sql_insert_fresh r db rows :
  tbl_rows T (work db) = Some rows →
  tbl_key T r ∉ tbl_key T <$> rows →
  sql_insert T r db = (Return tt, set_work (tbl_put T (rows ++ [r])) db).
Proof. unfold sql_insert. intros -> ?. rewrite decide_False by done. reflexivity. Qed.

Lemma sql_insert_conflict r db rows :
  tbl_rows T (work db) = Some rows →
  tbl_key T r ∈ tbl_key T <$> rows →
  sql_insert T r db = (Raise IntegrityError, db).
Proof. unfold sql_insert. intros -> ?. rewrite decide_True by done. reflexivity. Qed.

(** A statement that returns found its table and its key free. *)
Lemma sql_insert_Return r db db' :
  sql_insert T r db = (Return tt, db') →
  ∃ rows, tbl_rows T (work db) = Some rows ∧
          (tbl_key T r ∉ tbl_key T <$> rows) ∧
          db' = set_work (tbl_put T (rows ++ [r])) db.
Proof.
  unfold sql_insert. destruct (tbl_rows T (work db)) as [rows|]; [|discriminate].
  case_decide; [discriminate|]. intros [= <-]. eauto.
Qed.
End StatementLemmas.

Lemma filter_all {A} (P : A → Prop) `{∀ x, Decision (P x)} (l : list A) :
  (∀ x, x ∈ l → P x) → filter P l = l.
Proof.
  induction l as [|x l IH]; intros Hl; [done|].
  rewrite filter_cons_True by (apply Hl; left).
  f_equal. apply IH. intros y Hy. apply Hl. by right.
Qed.

Lemma filter_none {A} (P : A → Prop) `{∀ x, Decision (P x)} (l : list A) :
  (∀ x, x ∈ l → ¬ P x) → filter P l = [].
Proof.
  induction l as [|x l IH]; intros Hl; [done|].
  rewrite filter_cons_False by (apply Hl; left).
  apply IH. intros y Hy. apply Hl. by right.
Qed.

Lemma filter_after_delete {A} (P : A → Prop) `{∀ x, Decision (P x)} (l : list A) :
  filter P (filter (λ x, ¬ P x) l) = [].
Proof. apply filter_none. intros x [Hx _]%list_elem_of_filter. done. Qed.

(** ** Orders *)

Lemma sql_max_spec xs m :
  sql_max xs = Some m → m ∈ xs ∧ ∀ x, x ∈ xs → x ≤ m.
Proof.
  destruct xs as [|x xs]; [discriminate|]. simpl. intros [= <-].
  revert x. induction xs as [|y xs IH]; intros x; simpl.
  - split; [left|]. intros z ->%list_elem_of_singleton. lia.
  - destruct (IH (Z.max x y)) as [Hin Hle]. split.
    + apply elem_of_cons in Hin as [Heq|Hin]; [|by do 2 right].
      rewrite Heq. destruct (Z.max_spec x y) as [[_ ->]|[_ ->]]; [right; left | left].
    + intros z Hz. apply elem_of_cons in Hz as [->|Hz].
      * pose proof (Hle (Z.max x y) ltac:(left)). lia.
      * apply elem_of_cons in Hz as [->|Hz].
        -- pose proof (Hle (Z.max x y) ltac:(left)). lia.
        -- apply Hle. by right.
Qed.

(** C6: the next order number is 1 on a store without orders and otherwise
    one more than the largest order number of any trader; after orders
    numbered 3, 7 and 2 it is 8. *)
Theorem get_next_order_number_spec (db : DB) (rows : list OrderRow) :
  tbl_orders (work db) = Some rows →
  (∃ n, get_next_order_number db = (Return n, db) ∧
        (rows = [] → n = 1) ∧
        (rows ≠ [] →
           (∃ r, r ∈ rows ∧ n = ord_order_number r + 1) ∧
           (∀ r, r ∈ rows → ord_order_number r + 1 ≤ n))) ∧
  get_next_order_number Sample.db0 = (Return 1, Sample.db0) ∧
  (ord_order_number <$> rows_of (tbl_orders (work Sample.db_372)) = [3; 7; 2] ∧
   get_next_order_number Sample.db_372 = (Return 8, Sample.db_372)).
Proof.
  intros Hrows. split; [|split; [|split]; reflexivity].
  unfold get_next_order_number, bind.
  rewrite (sql_select_rows orders _ db rows) by done.
  rewrite filter_all by done.
  destruct (sql_max (ord_order_number <$> rows)) as [m|] eqn:Hmax.
  - apply sql_max_spec in Hmax as [Hin Hle].
    apply list_elem_of_fmap in Hin as (r & -> & Hr).
    assert (∀ r', r' ∈ rows → ord_order_number r' ≤ ord_order_number r) as Hall.
    { intros r' Hr'. apply Hle, list_elem_of_fmap. eauto. }
    case_decide as H0.
    + exists 1. split; [done|]. split; [intros ->; inversion Hr|]. intros _. split.
      * exists r. split; [done | lia].
      * intros r' Hr'. specialize (Hall r' Hr'). lia.
    + eexists. split; [done|]. split; [intros ->; inversion Hr|]. intros _. split.
      * eauto.
      * intros r' Hr'. specialize (Hall r' Hr'). lia.
  - destruct rows; [|discriminate]. exists 1. done.
Qed.

Lemma get_next_order_number_spec_witness :
  ∃ n, get_next_order_number Sample.db0 = (Return n, Sample.db0) ∧ n = 1.
Proof.
  destruct (get_next_order_number_spec Sample.db0 [] eq_refl) as [(n & Hn & H1 & _) _].
  exists n. split; [exact Hn | apply H1; reflexivity].
Defined.

(** C7: delete_order never fails on a created store; it removes exactly the
    order row and the reservation rows of that id, so that get_order then
    finds nothing and get_reserved_ticks returns the empty list; for an id
    with no rows it leaves the store as it was. *)
Theorem delete_order_removes_order_and_reservations
    (id : OrderId) (db : DB) (orows : list OrderRow) (rrows : list ReservedTickRow) :
  tbl_orders (work db) = Some orows →
  tbl_orders_reserved_ticks (work db) = Some rrows →
  ∃ db', delete_order id db = (Return tt, db') ∧
         work db' =
           set_orders_reserved_ticks (Some (filter (λ r, ¬ reserved_by id r) rrows))
             (set_orders (Some (filter (λ r, ¬ of_order id r) orows)) (work db)) ∧
         durable db' = durable db ∧
         get_order id db' = (Return None, db') ∧
         get_reserved_ticks id db' = (Return [], db') ∧
         ((∀ r, r ∈ orows → ¬ of_order id r) →
          (∀ r, r ∈ rrows → ¬ reserved_by id r) → db' = db).
Proof.
  intros Ho Hr. eexists. split; [|split; [|split; [|split; [|split]]]].
  - unfold delete_order, delete_reserved_ticks, bind.
    rewrite (sql_delete_rows orders _ db orows) by done.
    erewrite (sql_delete_rows orders_reserved_ticks) by (simpl; exact Hr).
    reflexivity.
  - reflexivity.
  - reflexivity.
  - unfold get_order, bind.
    erewrite (sql_select_rows orders) by reflexivity.
    rewrite filter_after_delete. reflexivity.
  - unfold get_reserved_ticks, bind.
    erewrite (sql_select_rows orders_reserved_ticks) by reflexivity.
    rewrite filter_after_delete. reflexivity.
  - intros Hno Hnr. rewrite !filter_all by done.
    destruct db as [w d]. unfold set_work. simpl in *. f_equal.
    rewrite <- Ho, set_orders_id, <- Hr. apply set_orders_reserved_ticks_id.
Qed.

Lemma for_each_cons {A} (x : A) xs (body : A → M unit) db :
  for_each (x :: xs) body db =
  match body x db with
  | (Return _, db') => for_each xs body db'
  | (Raise e, db') => (Raise e, db')
  end.
Proof. reflexivity. Qed.

(** One reservation insert either fails and changes nothing, or appends its
    row and commits. *)
Lemma reserved_ticks_same_rows t rr :
  tbl_orders_reserved_ticks t = Some rr → set_orders_reserved_ticks (Some rr) t = t.
Proof. intros <-. destruct t; reflexivity. Qed.

(** The reservation inserts run until the first one whose key is taken: the
    [k] inserts before it found their keys free and are committed, that one
    raises IntegrityError, and nothing after it runs. *)
Lemma add_reserved_ticks_prefix (id : OrderId) (items : list (OrderId * Z)) (db : DB) rr :
  durable db = work db →
  tbl_orders_reserved_ticks (work db) = Some rr →
  ∃ k : nat,
    (k ≤ length items)%nat ∧
    (∀ i item, items !! i = Some item → (i < k)%nat →
       tbl_key orders_reserved_ticks (reservation_row id item)
         ∉ tbl_key orders_reserved_ticks
             <$> (rr ++ (reservation_row id <$> take i items))) ∧
    (∀ item, items !! k = Some item →
       tbl_key orders_reserved_ticks (reservation_row id item)
         ∈ tbl_key orders_reserved_ticks
             <$> (rr ++ (reservation_row id <$> take k items))) ∧
    for_each items (λ item, add_reserved_tick id item.1 item.2) db =
    (if decide (k = length items) then Return tt else Raise IntegrityError,
     let w := set_orders_reserved_ticks
                (Some (rr ++ (reservation_row id <$> take k items))) (work db)
     in {| work := w; durable := w |}).
Proof.
  revert db rr. induction items as [|item items IH]; intros db rr Hdur Hrr.
  - exists 0%nat. split; [done|]. split; [intros ? ? ? ?; lia|].
    split; [intros ? [=]|]. simpl.
    rewrite app_nil_r, (reserved_ticks_same_rows _ _ Hrr).
    destruct db; simpl in *; subst; reflexivity.
  - rewrite for_each_cons.
    change (add_reserved_tick id item.1 item.2 db)
      with (bind (sql_insert orders_reserved_ticks (reservation_row id item))
                 (λ _, commit) db).
    unfold bind at 1.
    destruct (decide (tbl_key orders_reserved_ticks (reservation_row id item)
                        ∈ tbl_key orders_reserved_ticks <$> rr)) as [Htaken|Hfree].
    + rewrite (sql_insert_conflict orders_reserved_ticks _ db rr Hrr Htaken).
      exists 0%nat. split; [simpl; lia|]. split; [intros ? ? ? ?; lia|].
      split; [intros ? [= <-]; simpl; by rewrite app_nil_r|]. simpl.
      rewrite app_nil_r, (reserved_ticks_same_rows _ _ Hrr).
      destruct db; simpl in *; subst; reflexivity.
    + rewrite (sql_insert_fresh orders_reserved_ticks _ db rr Hrr Hfree). cbn [commit].
      set (db1 := {| work := _; durable := _ |}).
      destruct (IH db1 (rr ++ [reservation_row id item]) eq_refl eq_refl)
        as (k & Hk & Hbefore & Hat & Hrun).
      exists (S k). split; [simpl; lia|]. split; [|split].
      * intros [|i] item' Hi Hlt.
        -- injection Hi as <-. simpl. by rewrite app_nil_r.
        -- rewrite firstn_cons, fmap_cons, cons_middle, (assoc_L (++)).
           apply (Hbefore i); [exact Hi | lia].
      * intros item' Hi.
        rewrite firstn_cons, fmap_cons, cons_middle, (assoc_L (++)). by apply Hat.
      * rewrite Hrun. subst db1. cbn. rewrite <- (assoc_L (++) rr [_]). cbn.
        f_equal. repeat case_decide; try reflexivity; lia.
Qed.

(** C2, refuted as stated: with an orphan reservation row already stored, the
    second reservation insert fails after the order row and the first
    reservation row were committed; the durable state is neither the prior one
    nor the complete one. *)
Lemma add_order_not_all_or_nothing :
  (add_order Sample.o Sample.db_orphan).1 = Raise IntegrityError ∧
  ¬ add_order_all_or_nothing Sample.o Sample.db_orphan.
Proof.
  split; [reflexivity|]. intros [H|[_ H]].
  - vm_compute in H. discriminate H.
  - pose proof (H (Sample.bob_9, 3) ltac:(right; left)) as Hin.
    apply (list_elem_of_fmap_2 res_quantity), list_elem_of_In in Hin.
    vm_compute in Hin. intuition discriminate.
Qed.

Lemma add_order_fresh (order : Order) (db : DB) (orows : list OrderRow) :
  tbl_orders (work db) = Some orows →
  tbl_key orders (order_row order) ∉ tbl_key orders <$> orows →
  add_order order db =
  for_each (reserved_ticks order)
    (λ item, add_reserved_tick (order_id order) item.1 item.2)
    (let w := set_orders (Some (orows ++ [order_row order])) (work db) in
     {| work := w; durable := w |}).
Proof.
  intros Ho Hkey. unfold add_order, bind.
  rewrite (sql_insert_fresh orders _ db orows) by done. reflexivity.
Qed.

(** C2, amended: add_order commits the order row first and then each
    reservation row on its own, in the order of the reservation set, up to the
    first one whose key is already stored.  The k inserts before that one
    found their keys free; the durable state holds the order row and exactly
    those k reservation rows; the call returns normally when k is the size of
    the reservation set and raises IntegrityError otherwise, with nothing
    rolled back. *)
Theorem add_order_commits_row_by_row
    (order : Order) (db : DB) (orows : list OrderRow) (rrows : list ReservedTickRow) :
  tbl_orders (work db) = Some orows →
  tbl_orders_reserved_ticks (work db) = Some rrows →
  tbl_key orders (order_row order) ∉ tbl_key orders <$> orows →
  ∃ k : nat,
    (k ≤ length (reserved_ticks order))%nat ∧
    (∀ i item, reserved_ticks order !! i = Some item → (i < k)%nat →
       tbl_key orders_reserved_ticks (reservation_row (order_id order) item)
         ∉ tbl_key orders_reserved_ticks
             <$> (rrows ++ (reservation_row (order_id order)
                              <$> take i (reserved_ticks order)))) ∧
    (∀ item, reserved_ticks order !! k = Some item →
       tbl_key orders_reserved_ticks (reservation_row (order_id order) item)
         ∈ tbl_key orders_reserved_ticks
             <$> (rrows ++ (reservation_row (order_id order)
                              <$> take k (reserved_ticks order)))) ∧
    (add_order order db).1 =
      (if decide (k = length (reserved_ticks order))
       then Return tt else Raise IntegrityError) ∧
    durable (add_order order db).2 =
      set_orders_reserved_ticks
        (Some (rrows ++ (reservation_row (order_id order)
                           <$> take k (reserved_ticks order))))
        (set_orders (Some (orows ++ [order_row order])) (work db)) ∧
    work (add_order order db).2 = durable (add_order order db).2.
Proof.
  intros Ho Hr Hkey. rewrite (add_order_fresh order db orows) by done. cbn zeta.
  set (db1 := {| work := _; durable := _ |}).
  destruct (add_reserved_ticks_prefix (order_id order) (reserved_ticks order) db1 rrows
              eq_refl Hr)
    as (k & Hk & Hbefore & Hat & Hrun).
  exists k. rewrite Hrun. split; [done|]. split; [done|]. split; [done|].
  split; [reflexivity|]. split; reflexivity.
Qed.

(** ** Transactions and payments *)

Lemma bind_inv_Return {A B} (m : M A) (k : A → M B) db b db' :
  bind m k db = (Return b, db') →
  ∃ a db1, m db = (Return a, db1) ∧ k a db1 = (Return b, db').
Proof.
  unfold bind. destruct (m db) as [[a|e] db1]; [eauto | discriminate].
Qed.

Lemma add_payment_Return (p : Payment) (db db' : DB) :
  add_payment p db = (Return tt, db') →
  ∃ prows, tbl_payments (work db) = Some prows ∧
           tbl_payments (work db') = Some (prows ++ [p]) ∧
           tbl_transactions (work db') = tbl_transactions (work db).
Proof.
  intros ([] & db1 & Hins & Hc)%bind_inv_Return.
  apply sql_insert_Return in Hins as (prows & Hp & _ & ->).
  injection Hc as <-. exists prows. done.
Qed.

Lemma add_payments_Return (ps : list Payment) (db db' : DB) (prows : list PaymentRow) :
  tbl_payments (work db) = Some prows →
  for_each ps add_payment db = (Return tt, db') →
  tbl_payments (work db') = Some (prows ++ ps) ∧
  tbl_transactions (work db') = tbl_transactions (work db).
Proof.
  revert db prows. induction ps as [|p ps IH]; intros db prows Hp.
  - intros [= <-]. rewrite app_nil_r. done.
  - intros ([] & db1 & Hadd & Hrest)%bind_inv_Return.
    apply add_payment_Return in Hadd as (prows' & Hp' & Hp1 & Ht1).
    assert (prows' = prows) as -> by congruence.
    destruct (IH db1 _ Hp1 Hrest) as [Hp2 Ht2].
    rewrite Hp2, Ht2, Ht1, <- app_assoc. done.
Qed.

(** What a successful add_transaction found and what it left. *)
Lemma add_transaction_Return (t : Transaction) (db db' : DB) :
  add_transaction t db = (Return tt, db') →
  ∃ trows prows,
    tbl_transactions (work db) = Some trows ∧
    (transaction_id t ∉ tx_transaction_id <$> trows) ∧
    tbl_payments (work db) = Some prows ∧
    tbl_transactions (work db') = Some (trows ++ [transaction_row t]) ∧
    tbl_payments (work db') =
      Some (filter (λ p, ¬ of_transaction (transaction_id t) p) prows
              ++ transaction_payments t).
Proof.
  intros ([] & db1 & Hins & H)%bind_inv_Return.
  apply bind_inv_Return in H as ([] & db2 & Hc & H).
  apply bind_inv_Return in H as ([] & db3 & Hdel & Hadd).
  apply sql_insert_Return in Hins as (trows & Ht & Hkey & ->).
  injection Hc as <-.
  unfold delete_payments, sql_delete in Hdel. simpl in Hdel.
  destruct (tbl_payments (work db)) as [prows|] eqn:Hp; [|discriminate].
  injection Hdel as <-.
  eapply add_payments_Return in Hadd as [Hp3 Ht3]; [|reflexivity].
  exists trows, prows. rewrite Hp3, Ht3. done.
Qed.

#[global] Instance by_timestamp_total : Total by_timestamp.
Proof. intros p q. unfold by_timestamp. lia. Qed.

#[global] Instance by_timestamp_trans : Transitive by_timestamp.
Proof. intros p q r. unfold by_timestamp. lia. Qed.

(** C3: after a successful add_transaction, get_payments returns exactly the
    payments attached to the transaction, whatever payment rows were stored
    under its id before, in ascending order of timestamp. *)
Theorem add_transaction_replaces_payments (t : Transaction) (db db' : DB) :
  (∀ p, p ∈ transaction_payments t → pay_transaction_id p = transaction_id t) →
  add_transaction t db = (Return tt, db') →
  ∃ ps, get_payments (transaction_id t) db' = (Return ps, db') ∧
        ps ≡ₚ transaction_payments t ∧
        StronglySorted by_timestamp ps.
Proof.
  intros Hown (trows & prows & _ & _ & _ & _ & Hp)%add_transaction_Return.
  eexists. split; [|split].
  - unfold get_payments, bind.
    rewrite (sql_select_rows payments _ db' _ Hp). reflexivity.
  - rewrite merge_sort_Permutation, filter_app, filter_after_delete.
    simpl. rewrite filter_all; done.
  - apply StronglySorted_merge_sort; apply _.
Qed.

Lemma insert_or_update_transaction_rows (t : Transaction) (db : DB) trows :
  tbl_transactions (work db) = Some trows →
  insert_or_update_transaction t db =
  (Return tt,
   let inserted :=
     if decide (transaction_id t ∈ tx_transaction_id <$> trows)
     then trows else trows ++ [transaction_row t] in
   let w := set_transactions (Some (updated_by t <$> inserted)) (work db) in
   {| work := w; durable := w |}).
Proof.
  intros Ht. unfold insert_or_update_transaction, bind, sql_insert_or_ignore.
  simpl tbl_rows. rewrite Ht. simpl tbl_key. unfold transaction_id.
  case_decide; unfold sql_update; simpl tbl_rows; rewrite ?Ht; reflexivity.
Qed.

Lemma updated_by_other (t : Transaction) (rows : list TransactionRow) :
  (transaction_id t ∉ tx_transaction_id <$> rows) → updated_by t <$> rows = rows.
Proof.
  intros Hid. induction rows as [|r rows IH]; [done|].
  rewrite fmap_cons in *. apply not_elem_of_cons in Hid as [Hr Hid].
  rewrite IH by done. f_equal. unfold updated_by.
  rewrite decide_False; [done|]. intros [? _]. congruence.
Qed.

Lemma updated_by_fresh (t : Transaction) (r : TransactionRow) :
  ¬ stale_for t (updated_by t r).
Proof.
  unfold updated_by. case_decide as Hs; [|done].
  unfold stale_for, set_amounts. simpl. lia.
Qed.

Lemma updated_by_idemp (t : Transaction) (rows : list TransactionRow) :
  updated_by t <$> (updated_by t <$> rows) = updated_by t <$> rows.
Proof.
  induction rows as [|r rows IH]; [done|]. rewrite !fmap_cons, IH. f_equal.
  unfold updated_by at 1. rewrite decide_False; [done | apply updated_by_fresh].
Qed.

Lemma updated_by_id (t : Transaction) (r : TransactionRow) :
  tx_transaction_id (updated_by t r) = tx_transaction_id r.
Proof. unfold updated_by. case_decide; reflexivity. Qed.

Lemma updated_by_self (t : Transaction) : updated_by t (transaction_row t) = transaction_row t.
Proof.
  unfold updated_by. rewrite decide_False; [done|].
  unfold stale_for, timestamp. lia.
Qed.

(** C5: insert_or_update_transaction inserts a transaction whose id is not
    stored; on a stored id the insert is ignored without error, where
    add_transaction raises; and a second call with the same transaction leaves
    the store exactly as the first call left it. *)
Theorem insert_or_update_transaction_idempotent
    (t : Transaction) (db : DB) (trows : list TransactionRow) :
  tbl_transactions (work db) = Some trows →
  ∃ db1,
    insert_or_update_transaction t db = (Return tt, db1) ∧
    ((transaction_id t ∉ tx_transaction_id <$> trows) →
       tbl_transactions (work db1) = Some (trows ++ [transaction_row t])) ∧
    (transaction_id t ∈ tx_transaction_id <$> trows →
       add_transaction t db = (Raise IntegrityError, db) ∧
       tbl_transactions (work db1) = Some (updated_by t <$> trows)) ∧
    insert_or_update_transaction t db1 = (Return tt, db1).
Proof.
  intros Ht. eexists. split; [apply insert_or_update_transaction_rows, Ht|].
  cbn zeta. split; [|split].
  - intros Hid. rewrite decide_False by done. simpl.
    rewrite fmap_app, updated_by_other by done. simpl.
    rewrite updated_by_self. reflexivity.
  - intros Hid. rewrite decide_True by done. split; [|reflexivity].
    unfold add_transaction, bind.
    rewrite (sql_insert_conflict transactions _ db trows); done.
  - erewrite insert_or_update_transaction_rows by reflexivity. cbn zeta.
    rewrite decide_True.
    + rewrite updated_by_idemp. reflexivity.
    + case_decide as Hid.
      * rewrite <- list_fmap_compose.
        erewrite list_fmap_ext; [exact Hid|]. intros ? r _. apply updated_by_id.
      * rewrite !fmap_app, elem_of_app. right.
        simpl. rewrite updated_by_id. left.
Qed.

Lemma get_transaction_last (id : bytes) (db : DB) trows x prows :
  tbl_transactions (work db) = Some (trows ++ [x]) →
  (id ∉ tx_transaction_id <$> trows) →
  tx_transaction_id x = id →
  tbl_payments (work db) = Some prows →
  get_transaction id db =
  (Return (Some (Transaction_from_database x
                   (merge_sort by_timestamp (filter (of_transaction id) prows)))), db).
Proof.
  intros Ht Hid Hx Hp. unfold get_transaction, bind.
  rewrite (sql_select_rows transactions _ db _ Ht), filter_app.
  rewrite (filter_none _ trows), filter_cons_True by
    (done || intros r Hr <-; apply Hid, list_elem_of_fmap; eauto).
  simpl. unfold get_payments, bind.
  rewrite (sql_select_rows payments _ db _ Hp). reflexivity.
Qed.

(** C1: after add_transaction(t1), insert_or_update_transaction(t2) for the
    same id never fails.  When t2's timestamp is strictly greater than t1's,
    the stored row takes the two asset amounts, the two transferred amounts
    and the timestamp from t2; when it is not, the stored row is t1's row as
    it was.  In both cases each of the thirteen other columns keeps t1's
    value, and no other row of any table changes. *)
Theorem insert_or_update_after_add (t1 t2 : Transaction) (db db1 : DB) :
  transaction_id t2 = transaction_id t1 →
  add_transaction t1 db = (Return tt, db1) →
  ∃ db2 trows ps r',
    insert_or_update_transaction t2 db1 = (Return tt, db2) ∧
    get_transaction (transaction_id t1) db1 =
      (Return (Some (Transaction_from_database (transaction_row t1) ps)), db1) ∧
    get_transaction (transaction_id t1) db2 =
      (Return (Some (Transaction_from_database r' ps)), db2) ∧
    (timestamp t1 < timestamp t2 →
       tx_asset1_amount r' = tx_asset1_amount (transaction_row t2) ∧
       tx_asset1_transferred r' = tx_asset1_transferred (transaction_row t2) ∧
       tx_asset2_amount r' = tx_asset2_amount (transaction_row t2) ∧
       tx_asset2_transferred r' = tx_asset2_transferred (transaction_row t2) ∧
       tx_transaction_timestamp r' = tx_transaction_timestamp (transaction_row t2)) ∧
    (timestamp t2 ≤ timestamp t1 → r' = transaction_row t1) ∧
    tx_trader_id r' = tx_trader_id (transaction_row t1) ∧
    tx_transaction_id r' = tx_transaction_id (transaction_row t1) ∧
    tx_order_number r' = tx_order_number (transaction_row t1) ∧
    tx_partner_trader_id r' = tx_partner_trader_id (transaction_row t1) ∧
    tx_partner_order_number r' = tx_partner_order_number (transaction_row t1) ∧
    tx_asset1_type r' = tx_asset1_type (transaction_row t1) ∧
    tx_asset2_type r' = tx_asset2_type (transaction_row t1) ∧
    tx_sent_wallet_info r' = tx_sent_wallet_info (transaction_row t1) ∧
    tx_received_wallet_info r' = tx_received_wallet_info (transaction_row t1) ∧
    tx_incoming_address r' = tx_incoming_address (transaction_row t1) ∧
    tx_outgoing_address r' = tx_outgoing_address (transaction_row t1) ∧
    tx_partner_incoming_address r' = tx_partner_incoming_address (transaction_row t1) ∧
    tx_partner_outgoing_address r' = tx_partner_outgoing_address (transaction_row t1) ∧
    tbl_transactions (work db1) = Some (trows ++ [transaction_row t1]) ∧
    work db2 = set_transactions (Some (trows ++ [r'])) (work db1) ∧
    durable db2 = work db2.
Proof.
  intros Hid (trows & prows & _ & Hfresh & _ & Ht1 & Hp1)%add_transaction_Return.
  eexists _, trows, _, (updated_by t2 (transaction_row t1)).
  split; [apply insert_or_update_transaction_rows, Ht1|].
  cbn zeta. rewrite decide_True by
    (rewrite fmap_app, elem_of_app; right; simpl; rewrite Hid; left).
  rewrite fmap_app, updated_by_other by (by rewrite Hid). simpl.
  split; [apply (get_transaction_last _ db1 trows _ _ Ht1 Hfresh eq_refl Hp1)|].
  split.
  { eapply get_transaction_last; [reflexivity | exact Hfresh | | exact Hp1].
    apply updated_by_id. }
  assert (stale_for t2 (transaction_row t1) ↔ timestamp t1 < timestamp t2) as Hstale.
  { unfold stale_for. fold (transaction_id t1) (timestamp t1).
    split; [tauto | auto]. }
  split.
  { intros Hlt. unfold updated_by. rewrite decide_True by (by apply Hstale).
    unfold set_amounts, timestamp. simpl. done. }
  split.
  { intros Hle. unfold updated_by. rewrite decide_False; [done|].
    rewrite Hstale. lia. }
  unfold updated_by. case_decide; simpl; done.
Qed.

(** ** Concrete runs *)

Lemma insert_or_update_after_add_witness :
  transaction_id Sample.t_newer = transaction_id Sample.t1 ∧
  add_transaction Sample.t1 Sample.db0 = (Return tt, Sample.db_t1) ∧
  ∃ db2,
    insert_or_update_transaction Sample.t_newer Sample.db_t1 = (Return tt, db2) ∧
    tbl_transactions (work db2) =
      Some [ {| tx_trader_id := "alice"; tx_transaction_id := "tx"; tx_order_number := 1;
                tx_partner_trader_id := "bob"; tx_partner_order_number := 4;
                tx_asset1_amount := 11; tx_asset1_type := "BTC";
                tx_asset1_transferred := 6;
                tx_asset2_amount := 22; tx_asset2_type := "MB";
                tx_asset2_transferred := 9;
                tx_transaction_timestamp := 200;
                tx_sent_wallet_info := false; tx_received_wallet_info := false;
                tx_incoming_address := "in"; tx_outgoing_address := "out";
                tx_partner_incoming_address := "pin";
                tx_partner_outgoing_address := "pout" |} ] ∧
    tbl_payments (work db2) = tbl_payments (work Sample.db_t1) ∧
    durable db2 = work db2 ∧
    ∃ db3,
      insert_or_update_transaction Sample.t_not_newer Sample.db_t1 = (Return tt, db3) ∧
      tbl_transactions (work db3) = Some [transaction_row Sample.t1].
Proof.
  split; [reflexivity|]. split; [reflexivity|].
  destruct (insert_or_update_after_add Sample.t1 Sample.t_not_newer Sample.db0 Sample.db_t1
              eq_refl eq_refl)
    as (db3 & trows3 & ps3 & r3 & Hrun3 & _).
  destruct (insert_or_update_after_add Sample.t1 Sample.t_newer Sample.db0 Sample.db_t1
              eq_refl eq_refl)
    as (db2 & trows & ps & r' & Hrun & _ & _ & Hnew & _ & Htr & Hid & Hon & Hpt & Hpn
        & Ha1 & Ha2 & Hsw & Hrw & Hia & Hoa & Hpi & Hpo & Hrows & Hwork & Hdur).
  destruct (Hnew eq_refl) as (Hc1 & Hc2 & Hc3 & Hc4 & Hc5).
  exists db2. split; [exact Hrun|].
  assert (trows = []) as ->.
  { destruct trows as [|? [|? ?]]; [reflexivity | discriminate Hrows | discriminate Hrows]. }
  split; [|split; [rewrite Hwork; reflexivity | split; [exact Hdur|]]].
  - rewrite Hwork. simpl. do 2 f_equal. destruct r'; simpl in *. congruence.
  - exists db3. split; [exact Hrun3|]. injection Hrun3 as <-. reflexivity.
Defined.

Lemma add_order_commits_row_by_row_witness :
  tbl_orders (work Sample.db0) = Some [] ∧
  tbl_orders_reserved_ticks (work Sample.db0) = Some [] ∧
  (tbl_key orders (order_row Sample.o) ∉ tbl_key orders <$> []) ∧
  (add_order Sample.o Sample.db0).1 = Return tt ∧
  durable (add_order Sample.o Sample.db0).2 =
    set_orders_reserved_ticks
      (Some [reservation_row Sample.alice_1 (Sample.bob_4, 7);
             reservation_row Sample.alice_1 (Sample.bob_9, 3)])
      (set_orders (Some [order_row Sample.o]) (work Sample.db0)).
Proof.
  split; [reflexivity|]. split; [reflexivity|]. split; [apply not_elem_of_nil|].
  destruct (add_order_commits_row_by_row Sample.o Sample.db0 [] [] eq_refl eq_refl
              (not_elem_of_nil _))
    as (k & Hk & _ & Hat & Hres & Hdur & _).
  destruct k as [|[|[|k]]].
  - exfalso. apply (not_elem_of_nil _ (Hat _ eq_refl)).
  - exfalso. specialize (Hat _ eq_refl). apply list_elem_of_In in Hat.
    vm_compute in Hat. intuition discriminate.
  - split; [exact Hres | exact Hdur].
  - exfalso. simpl in Hk. lia.
Defined.

Lemma add_transaction_replaces_payments_witness :
  (∀ p, p ∈ transaction_payments Sample.t_unsorted →
        pay_transaction_id p = transaction_id Sample.t_unsorted) ∧
  add_transaction Sample.t_unsorted Sample.db_old = (Return tt, Sample.db_unsorted) ∧
  get_payments "tx" Sample.db_old = (Return [Sample.p_old], Sample.db_old) ∧
  get_payments "tx" Sample.db_unsorted =
    (Return [Sample.p1; Sample.p2; Sample.p3], Sample.db_unsorted) ∧
  ∃ ps, get_payments (transaction_id Sample.t_unsorted) Sample.db_unsorted
          = (Return ps, Sample.db_unsorted) ∧
        ps ≡ₚ transaction_payments Sample.t_unsorted ∧
        StronglySorted by_timestamp ps.
Proof.
  assert (∀ p, p ∈ transaction_payments Sample.t_unsorted →
               pay_transaction_id p = transaction_id Sample.t_unsorted) as Hown.
  { apply Forall_forall. repeat constructor. }
  split; [exact Hown|]. split; [reflexivity|]. split; [reflexivity|].
  split; [reflexivity|].
  exact (add_transaction_replaces_payments
           Sample.t_unsorted Sample.db_old Sample.db_unsorted Hown eq_refl).
Defined.

Lemma check_database_upgrades_legacy_witness :
  LATEST_DB_VERSION ≤ 7 ∧ digits_only "2" ∧ int "2" < LATEST_DB_VERSION ∧
  length (rows_of (tbl_orders (durable Sample.db_rows))) = 1%nat ∧
  length (rows_of (tbl_payments (durable Sample.db_rows))) = 1%nat ∧
  ∃ db', check_database 7 (PyBytes "2") Sample.db_rows = (Return LATEST_DB_VERSION, db') ∧
         tbl_orders (durable db') = Some [] ∧
         tbl_transactions (durable db') = Some [] ∧
         tbl_payments (durable db') = Some [] ∧
         tbl_ticks (durable db') = Some [] ∧
         tbl_orders_reserved_ticks (durable db') = Some [] ∧
         version_marker (durable db') = Some (pretty LATEST_DB_VERSION).
Proof.
  assert (LATEST_DB_VERSION ≤ 7) as HP by (unfold LATEST_DB_VERSION; lia).
  assert (digits_only "2") as Hd by (apply isdigit_spec; reflexivity).
  assert (int "2" < LATEST_DB_VERSION) as Hv by reflexivity.
  split; [exact HP|]. split; [exact Hd|]. split; [exact Hv|].
  split; [reflexivity|]. split; [reflexivity|].
  destruct (check_database_upgrades_legacy 7 "2" Sample.db_rows HP Hd Hv)
    as [_ (db' & H & _ & H')].
  exists db'. split; [exact H | exact H'].
Defined.

Lemma insert_or_update_transaction_idempotent_witness :
  tbl_transactions (work Sample.db0) = Some [] ∧
  ∃ db1,
    insert_or_update_transaction Sample.t1 Sample.db0 = (Return tt, db1) ∧
    tbl_transactions (work db1) = Some [transaction_row Sample.t1] ∧
    insert_or_update_transaction Sample.t1 db1 = (Return tt, db1).
Proof.
  split; [reflexivity|].
  destruct (insert_or_update_transaction_idempotent Sample.t1 Sample.db0 [] eq_refl)
    as (db1 & Hrun & Hnew & _ & Hagain).
  exists db1. split; [exact Hrun|]. split; [|exact Hagain].
  apply Hnew, not_elem_of_nil.
Defined.

Lemma delete_order_removes_order_and_reservations_witness :
  tbl_orders (work Sample.db_o) = Some [order_row Sample.o] ∧
  tbl_orders_reserved_ticks (work Sample.db_o) =
    Some (reservation_row Sample.alice_1 <$> reserved_ticks Sample.o) ∧
  get_reserved_ticks Sample.alice_1 Sample.db_o =
    (Return (reserved_ticks Sample.o), Sample.db_o) ∧
  ∃ db', delete_order Sample.alice_1 Sample.db_o = (Return tt, db') ∧
         get_order Sample.alice_1 db' = (Return None, db') ∧
         get_reserved_ticks Sample.alice_1 db' = (Return [], db').
Proof.
  split; [reflexivity|]. split; [reflexivity|]. split; [reflexivity|].
  destruct (delete_order_removes_order_and_reservations
              Sample.alice_1 Sample.db_o _ _ eq_refl eq_refl)
    as (db' & Hrun & _ & _ & Hgone & Hfree & _).
  exists db'. split; [exact Hrun|]. split; [exact Hgone | exact Hfree].
Defined.

Lemma check_database_current_is_noop_witness :
  digits_only "8" ∧ 8 ≤ int "8" ∧
  durable Sample.db_pending ≠ work Sample.db_pending ∧
  check_database 8 (PyBytes "8") Sample.db_pending
    = (Return LATEST_DB_VERSION, Sample.db_pending).
Proof.
  assert (digits_only "8") as Hd by (apply isdigit_spec; reflexivity).
  assert (8 ≤ int "8") as Hv by (vm_compute; discriminate).
  split; [exact Hd|]. split; [exact Hv|].
  split; [vm_compute; discriminate|].
  exact (proj1 (check_database_current_is_noop 8 "8" Sample.db_pending Hd) Hv).
Defined.

(** * Further properties of the store *)

(** ** Orders and their reservations *)

Lemma OrderId_eq (a b : OrderId) :
  trader_id a = trader_id b → order_number a = order_number b → a = b.
Proof. destruct a, b; simpl; congruence. Qed.

Lemma set_orders_reserved_ticks_same t rr :
  tbl_orders_reserved_ticks t = Some rr → set_orders_reserved_ticks (Some rr) t = t.
Proof. intros <-. apply set_orders_reserved_ticks_id. Qed.

(** With no key taken and no key twice, every reservation insert goes through. *)
Lemma add_reserved_ticks_all (id : OrderId) (items : list (OrderId * Z)) (db : DB) rr :
  durable db = work db →
  tbl_orders_reserved_ticks (work db) = Some rr →
  (∀ item, item ∈ items →
     tbl_key orders_reserved_ticks (reservation_row id item)
       ∉ tbl_key orders_reserved_ticks <$> rr) →
  NoDup (items.*1) →
  for_each items (λ item, add_reserved_tick id item.1 item.2) db =
  (Return tt,
   let w := set_orders_reserved_ticks (Some (rr ++ (reservation_row id <$> items))) (work db)
   in {| work := w; durable := w |}).
Proof.
  revert db rr. induction items as [|item items IH]; intros db rr Hdur Hrr Hfree Hnd.
  - simpl. rewrite app_nil_r, (set_orders_reserved_ticks_same _ _ Hrr).
    destruct db; simpl in *; subst; reflexivity.
  - rewrite for_each_cons.
    change (add_reserved_tick id item.1 item.2 db)
      with (bind (sql_insert orders_reserved_ticks (reservation_row id item))
                 (λ _, commit) db).
    unfold bind at 1.
    rewrite (sql_insert_fresh orders_reserved_ticks _ db rr Hrr) by (apply Hfree; left).
    cbn [commit]. rewrite fmap_cons in Hnd. apply NoDup_cons in Hnd as [Hitem Hnd].
    erewrite IH; [| reflexivity | reflexivity | | exact Hnd].
    + cbn. rewrite <- app_assoc. reflexivity.
    + intros item' Hin. rewrite fmap_app, elem_of_app. intros [Hold|Hnew].
      * apply (Hfree item'); [by right | exact Hold].
      * apply list_elem_of_singleton in Hnew. simpl in Hnew.
        apply Hitem. apply list_elem_of_fmap. exists item'. split; [|done].
        injection Hnew as Ht Hn. symmetry. by apply OrderId_eq.
Qed.

Lemma reserved_rows_back (id : OrderId) (items : list (OrderId * Z)) :
  reserved_item <$> (reservation_row id <$> items) = items.
Proof.
  induction items as [|[[tr n] q] items IH]; [done|].
  rewrite !fmap_cons, IH. reflexivity.
Qed.

Lemma bytes_lt_irrefl a : ¬ bytes_lt a a.
Proof. intros [_ H]. done. Qed.

Lemma bytes_lt_trans a b c : bytes_lt a b → bytes_lt b c → bytes_lt a c.
Proof.
  intros [Hab Hne] [Hbc Hne']. split; [by etrans|].
  intros ->. apply Hne. by apply (anti_symm String.le).
Qed.

Lemma bytes_trichotomy a b : bytes_lt a b ∨ a = b ∨ bytes_lt b a.
Proof.
  destruct (decide (a = b)) as [->|Hne]; [by right; left|].
  destruct (total String.le a b); [left | right; right]; split; done.
Qed.

Lemma id_lt_irrefl k : ¬ id_lt k k.
Proof. intros [H|[_ H]]; [by apply bytes_lt_irrefl in H | lia]. Qed.

Lemma id_lt_trans k1 k2 k3 : id_lt k1 k2 → id_lt k2 k3 → id_lt k1 k3.
Proof.
  unfold id_lt. intros [H12|[E12 H12]] [H23|[E23 H23]].
  - left. by eapply bytes_lt_trans.
  - left. by rewrite <- E23.
  - left. by rewrite E12.
  - right. split; [congruence | lia].
Qed.

Lemma id_le_trans k1 k2 k3 : id_le k1 k2 → id_le k2 k3 → id_le k1 k3.
Proof.
  unfold id_le. intros [H12|[E12 H12]] [H23|[E23 H23]].
  - left. by eapply bytes_lt_trans.
  - left. by rewrite <- E23.
  - left. by rewrite E12.
  - right. split; [congruence | lia].
Qed.

Lemma id_trichotomy (k k' : bytes * Z) : id_lt k k' ∨ k = k' ∨ id_lt k' k.
Proof.
  destruct k as [a n], k' as [a' n']. unfold id_lt. simpl.
  destruct (bytes_trichotomy a a') as [H|[->|H]]; [by left; left | | by right; right; left].
  destruct (Z.lt_trichotomy n n') as [H|[->|H]].
  - left. by right.
  - right. by left.
  - right. right. by right.
Qed.

Lemma id_le_total (k k' : bytes * Z) : id_le k k' ∨ id_le k' k.
Proof.
  destruct k as [a n], k' as [a' n']. unfold id_le. simpl.
  destruct (bytes_trichotomy a a') as [H|[->|H]]; [by left; left | | by right; left].
  destruct (Z.le_ge_cases n n'); [left | right]; by right.
Qed.

Lemma id_le_antisym (k k' : bytes * Z) : id_le k k' → id_le k' k → k = k'.
Proof.
  destruct k as [a n], k' as [a' n']. unfold id_le. simpl.
  intros [H|[-> H]] [H'|[E' H']].
  - exfalso. eapply bytes_lt_irrefl, bytes_lt_trans; eauto.
  - subst. by apply bytes_lt_irrefl in H.
  - by apply bytes_lt_irrefl in H'.
  - f_equal. lia.
Qed.

#[global] Instance index_order_total : Total index_order.
Proof.
  intros r r'. unfold index_order.
  destruct (id_trichotomy (res_trader_id r, res_order_number r)
                          (res_trader_id r', res_order_number r')) as [H|[E|H]];
    [by left; left | | by right; left].
  destruct (id_le_total (res_reserved_trader_id r, res_reserved_order_number r)
                        (res_reserved_trader_id r', res_reserved_order_number r'));
    [left | right]; right; done.
Qed.

#[global] Instance index_order_trans : Transitive index_order.
Proof.
  intros r1 r2 r3. unfold index_order. intros [H12|[E12 H12]] [H23|[E23 H23]].
  - left. by eapply id_lt_trans.
  - left. by rewrite <- E23.
  - left. by rewrite E12.
  - right. split; [congruence | by eapply id_le_trans].
Qed.

Lemma StronglySorted_fmap_elem_of {A B} (f : A → B) (R1 : relation A) (R2 : relation B) l :
  (∀ x y, x ∈ l → y ∈ l → R1 x y → R2 (f x) (f y)) →
  StronglySorted R1 l → StronglySorted R2 (f <$> l).
Proof.
  intros Hf Hs. induction Hs as [|x l Hs IH Hx]; csimpl; constructor.
  - apply IH. intros y z Hy Hz. apply Hf; by right.
  - rewrite Forall_fmap. rewrite Forall_forall in Hx |- *. intros y Hy. simpl.
    apply Hf; [left | by right | by apply Hx].
Qed.

(** Among the rows of one order the index order is that of the counterpart
    ids. *)
Lemma reserved_items_sorted (id : OrderId) (rows : list ReservedTickRow) :
  (∀ r, r ∈ rows → reserved_by id r) →
  StronglySorted by_reserved_id (reserved_item <$> merge_sort index_order rows).
Proof.
  intros Hid. apply (StronglySorted_fmap_elem_of _ index_order).
  - intros x y Hx Hy. rewrite merge_sort_Permutation in Hx, Hy.
    destruct (Hid x Hx) as [Hxt Hxn], (Hid y Hy) as [Hyt Hyn].
    unfold index_order, by_reserved_id. rewrite Hxt, Hxn, Hyt, Hyn.
    intros [H|[_ H]]; [by apply id_lt_irrefl in H | exact H].
  - apply StronglySorted_merge_sort; apply _.
Qed.

Lemma get_reserved_ticks_rows (id : OrderId) (db : DB) rrows :
  tbl_orders_reserved_ticks (work db) = Some rrows →
  get_reserved_ticks id db =
  (Return (reserved_item <$> merge_sort index_order (filter (reserved_by id) rrows)), db).
Proof.
  intros Hr. unfold get_reserved_ticks, bind.
  rewrite (sql_select_rows orders_reserved_ticks _ db rrows Hr). reflexivity.
Qed.

Lemma get_order_rows (id : OrderId) (db : DB) orows rrows :
  tbl_orders (work db) = Some orows →
  tbl_orders_reserved_ticks (work db) = Some rrows →
  get_order id db =
  (Return (match filter (of_order id) orows with
           | [] => None
           | db_result :: _ =>
               Some (Order_from_database db_result
                       (reserved_item <$>
                          merge_sort index_order (filter (reserved_by id) rrows)))
           end), db).
Proof.
  intros Ho Hr. unfold get_order, bind.
  rewrite (sql_select_rows orders _ db orows Ho).
  destruct (filter (of_order id) orows); [reflexivity|].
  rewrite (get_reserved_ticks_rows id db rrows Hr). reflexivity.
Qed.

Lemma add_order_work
    (order : Order) (db : DB) (orows : list OrderRow) (rrows : list ReservedTickRow) :
  tbl_orders (work db) = Some orows →
  tbl_orders_reserved_ticks (work db) = Some rrows →
  (∀ r, r ∈ orows → ¬ of_order (order_id order) r) →
  (∀ r, r ∈ rrows → ¬ reserved_by (order_id order) r) →
  NoDup ((reserved_ticks order).*1) →
  add_order order db =
  (Return tt,
   let w :=
     set_orders_reserved_ticks
       (Some (rrows ++ (reservation_row (order_id order) <$> reserved_ticks order)))
       (set_orders (Some (orows ++ [order_row order])) (work db)) in
   {| work := w; durable := w |}).
Proof.
  intros Ho Hr Hfresh Hnone Hnd.
  assert (tbl_key orders (order_row order) ∉ tbl_key orders <$> orows) as Hkey.
  { intros (r & Heq & Hin)%list_elem_of_fmap. apply (Hfresh r Hin).
    injection Heq as Ht Hn. split; symmetry; assumption. }
  rewrite (add_order_fresh order db orows Ho Hkey). cbn zeta.
  erewrite (add_reserved_ticks_all _ _ _ rrows); [| reflexivity | exact Hr | | exact Hnd].
  - reflexivity.
  - intros item _ (r & Heq & Hin)%list_elem_of_fmap. apply (Hnone r Hin).
    injection Heq as Ht Hn _ _. split; symmetry; assumption.
Qed.

(** X1: an order added under a free id, with no reservation row stored for
    that id, is read back by get_order with the row it was given and with the
    same reservation entries, which come back in the key order of their
    counterpart ids; all of it is durable. *)
Theorem add_order_get_order
    (order : Order) (db : DB) (orows : list OrderRow) (rrows : list ReservedTickRow) :
  tbl_orders (work db) = Some orows →
  tbl_orders_reserved_ticks (work db) = Some rrows →
  (∀ r, r ∈ orows → ¬ of_order (order_id order) r) →
  (∀ r, r ∈ rrows → ¬ reserved_by (order_id order) r) →
  NoDup ((reserved_ticks order).*1) →
  ∃ db' rt,
    add_order order db = (Return tt, db') ∧
    get_order (order_id order) db' =
      (Return (Some (Order_from_database (order_row order) rt)), db') ∧
    rt ≡ₚ reserved_ticks order ∧
    StronglySorted by_reserved_id rt ∧
    durable db' = work db'.
Proof.
  intros Ho Hr Hfresh Hnone Hnd.
  rewrite (add_order_work order db orows rrows) by done.
  assert (∀ r, r ∈ reservation_row (order_id order) <$> reserved_ticks order →
               reserved_by (order_id order) r) as Hown.
  { intros r (item & -> & _)%list_elem_of_fmap. by split. }
  eexists _, (reserved_item <$>
    merge_sort index_order (reservation_row (order_id order) <$> reserved_ticks order)).
  split; [reflexivity|]. cbn zeta.
  split; [|split; [|split; [|reflexivity]]].
  - erewrite get_order_rows by reflexivity.
    rewrite filter_app, (filter_none _ orows Hfresh).
    rewrite filter_cons_True by (by split).
    rewrite filter_app, (filter_none _ rrows Hnone).
    rewrite (filter_all (reserved_by (order_id order)) _ Hown).
    reflexivity.
  - rewrite merge_sort_Permutation. by rewrite reserved_rows_back.
  - by apply (reserved_items_sorted (order_id order)).
Qed.

(** What delete_order leaves in the working copy. *)
Lemma delete_order_work
    (id : OrderId) (db : DB) (orows : list OrderRow) (rrows : list ReservedTickRow) :
  tbl_orders (work db) = Some orows →
  tbl_orders_reserved_ticks (work db) = Some rrows →
  ∃ db', delete_order id db = (Return tt, db') ∧
         work db' =
           set_orders_reserved_ticks (Some (filter (λ r, ¬ reserved_by id r) rrows))
             (set_orders (Some (filter (λ r, ¬ of_order id r) orows)) (work db)) ∧
         durable db' = durable db.
Proof.
  intros Ho Hr. eexists. split.
  - unfold delete_order, delete_reserved_ticks, bind.
    rewrite (sql_delete_rows orders _ db orows) by done.
    erewrite (sql_delete_rows orders_reserved_ticks) by (simpl; exact Hr).
    reflexivity.
  - split; reflexivity.
Qed.

Lemma filter_filter_other {A} (P Q : A → Prop)
    `{∀ x, Decision (P x)} `{∀ x, Decision (Q x)} (l : list A) :
  (∀ x, P x → Q x) → filter P (filter Q l) = filter P l.
Proof.
  intros HPQ. induction l as [|x l IH]; [done|].
  destruct (decide (P x)) as [HP|HP].
  - rewrite (filter_cons_True Q) by auto. rewrite !(filter_cons_True P) by done.
    by rewrite IH.
  - rewrite (filter_cons_False P x l) by done.
    destruct (decide (Q x)).
    + rewrite (filter_cons_True Q) by done. rewrite (filter_cons_False P) by done. done.
    + rewrite (filter_cons_False Q) by done. done.
Qed.

Lemma of_order_other (id id' : OrderId) r :
  id' ≠ id → of_order id' r → ¬ of_order id r.
Proof.
  intros Hne [Ht Hn] [Ht' Hn']. apply Hne, OrderId_eq; congruence.
Qed.

Lemma reserved_by_other (id id' : OrderId) r :
  id' ≠ id → reserved_by id' r → ¬ reserved_by id r.
Proof.
  intros Hne [Ht Hn] [Ht' Hn']. apply Hne, OrderId_eq; congruence.
Qed.

(** X2: an insert under a primary key that is already stored raises
    IntegrityError before anything is written or committed: add_order adds
    no reservation row, add_transaction deletes no payment, and the store is
    left exactly as it was. *)
Theorem duplicate_key_raises (db : DB) :
  (∀ order orows,
     tbl_orders (work db) = Some orows →
     tbl_key orders (order_row order) ∈ tbl_key orders <$> orows →
     add_order order db = (Raise IntegrityError, db)) ∧
  (∀ id item rrows,
     tbl_orders_reserved_ticks (work db) = Some rrows →
     tbl_key orders_reserved_ticks (reservation_row id item)
       ∈ tbl_key orders_reserved_ticks <$> rrows →
     add_reserved_tick id item.1 item.2 db = (Raise IntegrityError, db)) ∧
  (∀ t trows,
     tbl_transactions (work db) = Some trows →
     tbl_key transactions (transaction_row t) ∈ tbl_key transactions <$> trows →
     add_transaction t db = (Raise IntegrityError, db)) ∧
  (∀ p prows,
     tbl_payments (work db) = Some prows →
     tbl_key payments p ∈ tbl_key payments <$> prows →
     add_payment p db = (Raise IntegrityError, db)) ∧
  (∀ tick krows,
     tbl_ticks (work db) = Some krows →
     tbl_key ticks tick ∈ tbl_key ticks <$> krows →
     add_tick tick db = (Raise IntegrityError, db)).
Proof.
  repeat split.
  - intros order orows Ho Hkey. unfold add_order, bind.
    by rewrite (sql_insert_conflict orders _ db orows).
  - intros id item rrows Hr Hkey.
    change (add_reserved_tick id item.1 item.2 db)
      with (bind (sql_insert orders_reserved_ticks (reservation_row id item))
                 (λ _, commit) db).
    unfold bind. by rewrite (sql_insert_conflict orders_reserved_ticks _ db rrows).
  - intros t trows Ht Hkey. unfold add_transaction, bind.
    by rewrite (sql_insert_conflict transactions _ db trows).
  - intros p prows Hp Hkey. unfold add_payment, bind.
    by rewrite (sql_insert_conflict payments _ db prows).
  - intros tick krows Hk Hkey. unfold add_tick, bind.
    by rewrite (sql_insert_conflict ticks _ db krows).
Qed.

(** X3: delete_order leaves every other order as it was: for a different id,
    get_order and get_reserved_ticks give the same result after it as
    before. *)
Theorem delete_order_keeps_other_orders
    (id id' : OrderId) (db : DB) (orows : list OrderRow) (rrows : list ReservedTickRow) :
  tbl_orders (work db) = Some orows →
  tbl_orders_reserved_ticks (work db) = Some rrows →
  id' ≠ id →
  ∃ db', delete_order id db = (Return tt, db') ∧
         (get_order id' db').1 = (get_order id' db).1 ∧
         (get_reserved_ticks id' db').1 = (get_reserved_ticks id' db).1.
Proof.
  intros Ho Hr Hne.
  destruct (delete_order_work id db orows rrows Ho Hr)
    as (db' & Hrun & Hwork & _).
  exists db'. split; [exact Hrun|].
  assert (tbl_orders (work db') = Some (filter (λ r, ¬ of_order id r) orows)) as Ho'
    by (rewrite Hwork; reflexivity).
  assert (tbl_orders_reserved_ticks (work db')
          = Some (filter (λ r, ¬ reserved_by id r) rrows)) as Hr'
    by (rewrite Hwork; reflexivity).
  rewrite (get_order_rows id' db' _ _ Ho' Hr'), (get_order_rows id' db _ _ Ho Hr).
  rewrite (get_reserved_ticks_rows id' db' _ Hr'), (get_reserved_ticks_rows id' db _ Hr).
  rewrite !filter_filter_other; [done | |].
  - intros r. by apply reserved_by_other.
  - intros r. by apply of_order_other.
Qed.

(** X4: add_reserved_tick on its own adds one entry to the reservation set
    of that order: get_reserved_ticks then returns the entries it returned
    before together with the new one, in the key order of their counterpart
    ids; the reservation sets of all other orders read as before, and the
    insert is committed. *)
Theorem add_reserved_tick_adds_entry
    (id rid : OrderId) (q : Z) (db : DB) (rrows : list ReservedTickRow) :
  tbl_orders_reserved_ticks (work db) = Some rrows →
  tbl_key orders_reserved_ticks (reservation_row id (rid, q))
    ∉ tbl_key orders_reserved_ticks <$> rrows →
  ∃ db' old new,
    add_reserved_tick id rid q db = (Return tt, db') ∧
    get_reserved_ticks id db = (Return old, db) ∧
    get_reserved_ticks id db' = (Return new, db') ∧
    new ≡ₚ (rid, q) :: old ∧
    StronglySorted by_reserved_id new ∧
    (∀ id', id' ≠ id → (get_reserved_ticks id' db').1 = (get_reserved_ticks id' db).1) ∧
    durable db' = work db'.
Proof.
  intros Hr Hkey.
  change (add_reserved_tick id rid q db)
    with (bind (sql_insert orders_reserved_ticks (reservation_row id (rid, q)))
               (λ _, commit) db).
  unfold bind. rewrite (sql_insert_fresh orders_reserved_ticks _ db rrows Hr Hkey).
  cbn [commit]. eexists _, _, _. split; [reflexivity|].
  split; [apply (get_reserved_ticks_rows id db rrows Hr)|].
  split; [apply get_reserved_ticks_rows; reflexivity|].
  split; [|split; [|split; [|reflexivity]]].
  - rewrite !merge_sort_Permutation, filter_app, filter_cons_True by (by split).
    rewrite fmap_app. simpl. rewrite <- Permutation_cons_append.
    destruct rid; reflexivity.
  - apply (reserved_items_sorted id). by intros r [? _]%list_elem_of_filter.
  - intros id' Hne. erewrite get_reserved_ticks_rows by reflexivity.
    rewrite (get_reserved_ticks_rows id' db rrows Hr).
    rewrite filter_app, filter_cons_False, app_nil_r; [done|].
    intros [Ht Hn]. apply Hne, OrderId_eq; symmetry; [exact Ht | exact Hn].
Qed.

(** X5: delete_reserved_ticks empties the reservation set of one order and
    nothing else: the order is still found, now with no reservations, other
    orders keep theirs, and nothing is committed. *)
Theorem delete_reserved_ticks_keeps_order
    (id : OrderId) (db : DB) (orows : list OrderRow) (rrows : list ReservedTickRow) :
  tbl_orders (work db) = Some orows →
  tbl_orders_reserved_ticks (work db) = Some rrows →
  ∃ db',
    delete_reserved_ticks id db = (Return tt, db') ∧
    get_reserved_ticks id db' = (Return [], db') ∧
    (get_order id db').1 =
      match (get_order id db).1 with
      | Return (Some order) => Return (Some (Order_from_database (order_row order) []))
      | other => other
      end ∧
    (∀ id', id' ≠ id → (get_reserved_ticks id' db').1 = (get_reserved_ticks id' db).1) ∧
    durable db' = durable db.
Proof.
  intros Ho Hr. unfold delete_reserved_ticks.
  rewrite (sql_delete_rows orders_reserved_ticks _ db rrows Hr).
  eexists. split; [reflexivity|]. split; [|split; [|split; [|reflexivity]]].
  - erewrite get_reserved_ticks_rows by reflexivity.
    rewrite filter_after_delete. reflexivity.
  - erewrite get_order_rows by (reflexivity || exact Ho).
    rewrite (get_order_rows id db orows rrows Ho Hr), filter_after_delete.
    destruct (filter (of_order id) orows); reflexivity.
  - intros id' Hne. erewrite get_reserved_ticks_rows by reflexivity.
    rewrite (get_reserved_ticks_rows id' db rrows Hr).
    rewrite filter_filter_other; [done|]. intros r. by apply reserved_by_other.
Qed.

(** X6: the number get_next_order_number returns is larger than every stored
    order number, so no trader has an order under it; it is at least 1 when
    no stored number is negative. *)
Theorem get_next_order_number_is_free (db : DB) (orows : list OrderRow) :
  tbl_orders (work db) = Some orows →
  ∃ n, get_next_order_number db = (Return n, db) ∧
       (∀ r, r ∈ orows → ord_order_number r < n) ∧
       (∀ trader, (trader, n) ∉ tbl_key orders <$> orows) ∧
       ((∀ r, r ∈ orows → 0 ≤ ord_order_number r) → 1 ≤ n).
Proof.
  intros Ho.
  assert (∃ n, get_next_order_number db = (Return n, db) ∧
               (∀ r, r ∈ orows → ord_order_number r < n) ∧
               ((∀ r, r ∈ orows → 0 ≤ ord_order_number r) → 1 ≤ n))
    as (n & Hrun & Hlt & Hpos).
  { unfold get_next_order_number, bind.
    rewrite (sql_select_rows orders _ db orows Ho), filter_all by done.
    destruct (sql_max (ord_order_number <$> orows)) as [m|] eqn:Hmax.
    - apply sql_max_spec in Hmax as [(r0 & -> & Hr0)%list_elem_of_fmap Hle].
      assert (∀ r, r ∈ orows → ord_order_number r ≤ ord_order_number r0) as Hall.
      { intros r Hr. apply Hle, list_elem_of_fmap. eauto. }
      case_decide as H0; eexists; (split; [reflexivity|]); split.
      + intros r Hr. specialize (Hall r Hr). lia.
      + done.
      + intros r Hr. specialize (Hall r Hr). lia.
      + intros Hnn. specialize (Hnn r0 Hr0). lia.
    - destruct orows; [|discriminate]. exists 1. split; [done|].
      split; [intros r Hr; inversion Hr | done]. }
  exists n. split; [done|]. split; [done|]. split; [|done].
  intros trader (r & Heq & Hr)%list_elem_of_fmap. injection Heq as _ Hn.
  specialize (Hlt r Hr). lia.
Qed.

(** X7: delete_order right after add_order gives back the working copy the
    store had before the order was added, but the deletion is not committed:
    the durable copy still holds the order and its reservation rows. *)
Theorem delete_order_undoes_add_order
    (order : Order) (db : DB) (orows : list OrderRow) (rrows : list ReservedTickRow) :
  tbl_orders (work db) = Some orows →
  tbl_orders_reserved_ticks (work db) = Some rrows →
  (∀ r, r ∈ orows → ¬ of_order (order_id order) r) →
  (∀ r, r ∈ rrows → ¬ reserved_by (order_id order) r) →
  NoDup ((reserved_ticks order).*1) →
  ∃ db1 db2,
    add_order order db = (Return tt, db1) ∧
    delete_order (order_id order) db1 = (Return tt, db2) ∧
    work db2 = work db ∧
    durable db2 = work db1 ∧
    tbl_orders (durable db2) = Some (orows ++ [order_row order]) ∧
    tbl_orders_reserved_ticks (durable db2) =
      Some (rrows ++ (reservation_row (order_id order) <$> reserved_ticks order)).
Proof.
  intros Ho Hr Hfresh Hnone Hnd.
  rewrite (add_order_work order db orows rrows) by done. cbn zeta.
  set (db1 := {| work := _; durable := _ |}).
  destruct (delete_order_work (order_id order) db1 _ _ eq_refl eq_refl)
    as (db2 & Hrun & Hwork & Hdur).
  exists db1, db2. split; [reflexivity|]. split; [exact Hrun|].
  split; [|rewrite Hdur; repeat split].
  rewrite Hwork. cbn [work db1].
  rewrite !filter_app, (filter_all _ orows), (filter_all _ rrows) by done.
  rewrite filter_cons_False by (intros H; apply H; by split).
  rewrite (filter_none _ (reservation_row _ <$> _)).
  - rewrite !app_nil_r. clear -Ho Hr. revert Ho Hr. generalize (work db).
    intros [] Ho Hr; simpl in *. by subst.
  - intros r (item & -> & _)%list_elem_of_fmap H. apply H. by split.
Qed.

(** ** Transactions and their payments *)

Lemma get_payments_rows (id : bytes) (db : DB) prows :
  tbl_payments (work db) = Some prows →
  get_payments id db =
  (Return (merge_sort by_timestamp (filter (of_transaction id) prows)), db).
Proof.
  intros Hp. unfold get_payments, bind.
  rewrite (sql_select_rows payments _ db prows Hp). reflexivity.
Qed.

Lemma get_transaction_rows (id : bytes) (db : DB) trows prows :
  tbl_transactions (work db) = Some trows →
  tbl_payments (work db) = Some prows →
  get_transaction id db =
  (Return (match filter (λ r, tx_transaction_id r = id) trows with
           | [] => None
           | db_result :: _ =>
               Some (Transaction_from_database db_result
                       (merge_sort by_timestamp (filter (of_transaction id) prows)))
           end), db).
Proof.
  intros Ht Hp. unfold get_transaction, bind.
  rewrite (sql_select_rows transactions _ db trows Ht).
  destruct (filter _ trows); [reflexivity|].
  rewrite (get_payments_rows id db prows Hp). reflexivity.
Qed.

Lemma set_payments_same t prows :
  tbl_payments t = Some prows → set_payments (Some prows) t = t.
Proof. intros <-. destruct t; reflexivity. Qed.

(** With no key taken and no key twice, every payment insert goes through;
    the inserts commit, so only an empty list leaves pending work pending. *)
Lemma add_payments_all (ps : list Payment) (db : DB) prows :
  tbl_payments (work db) = Some prows →
  (∀ p, p ∈ ps → tbl_key payments p ∉ tbl_key payments <$> prows) →
  NoDup (tbl_key payments <$> ps) →
  ∃ db', for_each ps add_payment db = (Return tt, db') ∧
         work db' = set_payments (Some (prows ++ ps)) (work db) ∧
         (ps ≠ [] → durable db' = work db') ∧
         (ps = [] → db' = db).
Proof.
  revert db prows. induction ps as [|p ps IH]; intros db prows Hp Hfree Hnd.
  - exists db. split; [reflexivity|]. rewrite app_nil_r, (set_payments_same _ _ Hp). done.
  - rewrite for_each_cons. unfold add_payment at 1, bind at 1.
    rewrite (sql_insert_fresh payments _ db prows Hp) by (apply Hfree; left).
    cbn [commit]. rewrite fmap_cons in Hnd. apply NoDup_cons in Hnd as [Hp0 Hnd].
    set (db1 := {| work := _; durable := _ |}).
    destruct (IH db1 (prows ++ [p]) eq_refl) as (db' & Hrun & Hwork & Hdur & Hnil);
      [|exact Hnd|].
    + intros p' Hin. rewrite fmap_app, elem_of_app. intros [Hold|Hnew].
      * apply (Hfree p'); [by right | exact Hold].
      * apply list_elem_of_singleton in Hnew. apply Hp0.
        rewrite <- Hnew. apply list_elem_of_fmap. eauto.
    + exists db'. split; [exact Hrun|]. split; [|split; [|done]].
      * rewrite Hwork. subst db1. cbn. rewrite <- app_assoc. reflexivity.
      * intros _. destruct ps as [|p' ps]; [|apply Hdur; done].
        rewrite (Hnil eq_refl). reflexivity.
Qed.

(** What a transaction under a free id, with payments of its own under
    distinct payment ids, leaves in the store. *)
Lemma add_transaction_work (t : Transaction) (db : DB) trows prows :
  tbl_transactions (work db) = Some trows →
  tbl_payments (work db) = Some prows →
  (transaction_id t ∉ tx_transaction_id <$> trows) →
  (∀ p, p ∈ transaction_payments t → pay_transaction_id p = transaction_id t) →
  NoDup (tbl_key payments <$> transaction_payments t) →
  ∃ db', add_transaction t db = (Return tt, db') ∧
         work db' =
           set_payments
             (Some (filter (λ p, ¬ of_transaction (transaction_id t) p) prows
                      ++ transaction_payments t))
             (set_transactions (Some (trows ++ [transaction_row t])) (work db)) ∧
         (transaction_payments t ≠ [] → durable db' = work db') ∧
         (transaction_payments t = [] →
            durable db' = set_transactions (Some (trows ++ [transaction_row t])) (work db)).
Proof.
  intros Ht Hp Hfresh Hown Hnd. unfold add_transaction, bind.
  rewrite (sql_insert_fresh transactions _ db trows Ht Hfresh). cbn [commit].
  unfold delete_payments.
  erewrite (sql_delete_rows payments) by (simpl; exact Hp).
  set (db2 := set_work _ _).
  destruct (add_payments_all (transaction_payments t) db2
              (filter (λ p, ¬ of_transaction (transaction_id t) p) prows) eq_refl)
    as (db' & Hrun & Hwork & Hdur & Hnil); [|exact Hnd|].
  - intros p Hin (r & Heq & [Hr _]%list_elem_of_filter)%list_elem_of_fmap.
    apply Hr. unfold of_transaction. injection Heq as _ _ Hid.
    rewrite <- Hid. by apply Hown.
  - exists db'. rewrite Hrun. split; [reflexivity|]. split; [|split; [done|]].
    + rewrite Hwork. reflexivity.
    + intros Hnone. rewrite (Hnil Hnone). reflexivity.
Qed.

Lemma strictly_sorted_inj (ps : list Payment) (p q : Payment) :
  StronglySorted (λ p q, pay_timestamp p < pay_timestamp q) ps →
  p ∈ ps → q ∈ ps → pay_timestamp p = pay_timestamp q → p = q.
Proof.
  induction 1 as [|a ps Hs IH Ha]; intros Hp Hq Heq; [inversion Hp|].
  rewrite Forall_forall in Ha.
  apply elem_of_cons in Hp as [->|Hp]; apply elem_of_cons in Hq as [->|Hq].
  - done.
  - specialize (Ha q Hq). lia.
  - specialize (Ha p Hp). lia.
  - by apply IH.
Qed.

Lemma strictly_sorted_by_timestamp (ps : list Payment) :
  StronglySorted (λ p q, pay_timestamp p < pay_timestamp q) ps →
  StronglySorted by_timestamp ps.
Proof.
  induction 1 as [|a ps Hs IH Ha]; constructor; [done|].
  eapply Forall_impl; [exact Ha|]. intros q Hq. unfold by_timestamp. simpl in Hq. lia.
Qed.

(** X8: a transaction added under a free id, whose payments carry its id
    and have distinct payment ids, is read back by get_transaction with its row
    unchanged and its payments sorted by timestamp; when the payments were
    attached in strictly increasing order of timestamp, the transaction read
    back is the one given. *)
Theorem add_transaction_get_transaction (t : Transaction) (db : DB) trows prows :
  tbl_transactions (work db) = Some trows →
  tbl_payments (work db) = Some prows →
  (transaction_id t ∉ tx_transaction_id <$> trows) →
  (∀ p, p ∈ transaction_payments t → pay_transaction_id p = transaction_id t) →
  NoDup (tbl_key payments <$> transaction_payments t) →
  ∃ db' ps,
    add_transaction t db = (Return tt, db') ∧
    get_transaction (transaction_id t) db' =
      (Return (Some (Transaction_from_database (transaction_row t) ps)), db') ∧
    ps ≡ₚ transaction_payments t ∧
    StronglySorted by_timestamp ps ∧
    (StronglySorted (λ p q, pay_timestamp p < pay_timestamp q) (transaction_payments t) →
     get_transaction (transaction_id t) db' = (Return (Some t), db')).
Proof.
  intros Ht Hp Hfresh Hown Hnd.
  destruct (add_transaction_work t db trows prows Ht Hp Hfresh Hown Hnd)
    as (db' & Hrun & Hwork & _).
  assert (get_transaction (transaction_id t) db' =
          (Return (Some (Transaction_from_database (transaction_row t)
             (merge_sort by_timestamp (transaction_payments t)))), db')) as Hget.
  { erewrite get_transaction_rows by (rewrite Hwork; reflexivity).
    rewrite filter_app, (filter_none _ trows), filter_cons_True by
      (done || intros r Hr Heq; apply Hfresh, list_elem_of_fmap; eauto).
    rewrite filter_app, filter_after_delete, (filter_all _ (transaction_payments t))
      by exact Hown.
    reflexivity. }
  exists db', (merge_sort by_timestamp (transaction_payments t)).
  split; [exact Hrun|]. split; [exact Hget|].
  split; [apply merge_sort_Permutation|].
  split; [apply StronglySorted_merge_sort; apply _|].
  intros Hsorted. rewrite Hget. do 3 f_equal.
  transitivity (Transaction_from_database (transaction_row t) (transaction_payments t));
    [|destruct t; reflexivity].
  f_equal. apply (StronglySorted_unique_strong by_timestamp).
  - intros p q Hp' Hq' Hpq Hqp. rewrite merge_sort_Permutation in Hp'.
    apply (strictly_sorted_inj (transaction_payments t)); [done..|].
    unfold by_timestamp in *. lia.
  - apply StronglySorted_merge_sort; apply _.
  - by apply strictly_sorted_by_timestamp.
  - apply merge_sort_Permutation.
Qed.

(** X9: add_transaction commits the transaction row before it deletes the
    payments stored under that id, and only the payment inserts commit after
    that: with at least one payment attached everything is durable on return,
    but with none attached the stored payments are deleted in the working
    copy only and the durable copy keeps them. *)
Theorem add_transaction_durability (t : Transaction) (db : DB) trows prows :
  tbl_transactions (work db) = Some trows →
  tbl_payments (work db) = Some prows →
  (transaction_id t ∉ tx_transaction_id <$> trows) →
  (∀ p, p ∈ transaction_payments t → pay_transaction_id p = transaction_id t) →
  NoDup (tbl_key payments <$> transaction_payments t) →
  ∃ db', add_transaction t db = (Return tt, db') ∧
         tbl_transactions (durable db') = Some (trows ++ [transaction_row t]) ∧
         (transaction_payments t ≠ [] → durable db' = work db') ∧
         (transaction_payments t = [] →
            tbl_payments (durable db') = Some prows ∧
            tbl_payments (work db') =
              Some (filter (λ p, ¬ of_transaction (transaction_id t) p) prows)).
Proof.
  intros Ht Hp Hfresh Hown Hnd.
  destruct (add_transaction_work t db trows prows Ht Hp Hfresh Hown Hnd)
    as (db' & Hrun & Hwork & Hdur & Hnil).
  exists db'. split; [exact Hrun|]. split; [|split; [exact Hdur|]].
  - destruct (transaction_payments t) as [|p ps] eqn:Hps.
    + rewrite Hnil by done. reflexivity.
    + rewrite Hdur, Hwork by done. reflexivity.
  - intros Hnone. rewrite Hnil, Hwork, Hnone, app_nil_r by done.
    split; [exact Hp | reflexivity].
Qed.

Lemma delete_transaction_work (id : bytes) (db : DB) trows prows :
  tbl_transactions (work db) = Some trows →
  tbl_payments (work db) = Some prows →
  delete_transaction id db =
  (Return tt,
   set_work (λ w, set_payments (Some (filter (λ p, ¬ of_transaction id p) prows))
                    (set_transactions
                       (Some (filter (λ r, ¬ tx_transaction_id r = id) trows)) w)) db).
Proof.
  intros Ht Hp. unfold delete_transaction, delete_payments, bind.
  rewrite (sql_delete_rows transactions _ db trows Ht).
  erewrite (sql_delete_rows payments) by (simpl; exact Hp).
  reflexivity.
Qed.

(** X10: delete_transaction removes the transaction and its payments and
    nothing else: afterwards get_transaction finds nothing and get_payments is
    empty for that id, every other transaction and its payments read as
    before, and nothing is committed. *)
Theorem delete_transaction_cascades (id : bytes) (db : DB) trows prows :
  tbl_transactions (work db) = Some trows →
  tbl_payments (work db) = Some prows →
  ∃ db', delete_transaction id db = (Return tt, db') ∧
         get_transaction id db' = (Return None, db') ∧
         get_payments id db' = (Return [], db') ∧
         (∀ id', id' ≠ id →
            (get_transaction id' db').1 = (get_transaction id' db).1 ∧
            (get_payments id' db').1 = (get_payments id' db).1) ∧
         durable db' = durable db.
Proof.
  intros Ht Hp. rewrite (delete_transaction_work id db trows prows Ht Hp).
  eexists. split; [reflexivity|]. split; [|split; [|split; [|reflexivity]]].
  - erewrite get_transaction_rows by reflexivity.
    rewrite filter_after_delete. reflexivity.
  - erewrite get_payments_rows by reflexivity.
    rewrite filter_after_delete. reflexivity.
  - intros id' Hne.
    erewrite get_transaction_rows, get_payments_rows by reflexivity.
    rewrite (get_transaction_rows id' db trows prows Ht Hp).
    rewrite (get_payments_rows id' db prows Hp).
    rewrite !filter_filter_other; [done | |].
    + unfold of_transaction. intros p ->. done.
    + intros r ->. done.
Qed.

(** X11: add_payment records one payment without touching its siblings:
    get_payments for its transaction then returns the payments it returned
    before together with the new one, sorted by timestamp, the payments of
    every other transaction read as before, and the insert is committed. *)
Theorem add_payment_appends (p : Payment) (db : DB) prows :
  tbl_payments (work db) = Some prows →
  tbl_key payments p ∉ tbl_key payments <$> prows →
  ∃ db' old new,
    add_payment p db = (Return tt, db') ∧
    get_payments (pay_transaction_id p) db = (Return old, db) ∧
    get_payments (pay_transaction_id p) db' = (Return new, db') ∧
    new ≡ₚ p :: old ∧
    StronglySorted by_timestamp new ∧
    (∀ id', id' ≠ pay_transaction_id p →
       (get_payments id' db').1 = (get_payments id' db).1) ∧
    durable db' = work db'.
Proof.
  intros Hp Hkey. unfold add_payment, bind.
  rewrite (sql_insert_fresh payments _ db prows Hp Hkey). cbn [commit].
  eexists _, _, _. split; [reflexivity|].
  split; [apply (get_payments_rows _ db prows Hp)|].
  split; [apply get_payments_rows; reflexivity|].
  split; [|split; [|split; [|reflexivity]]].
  - rewrite !merge_sort_Permutation, filter_app, filter_cons_True by done.
    simpl. by rewrite <- Permutation_cons_append.
  - apply StronglySorted_merge_sort; apply _.
  - intros id' Hne. erewrite get_payments_rows by reflexivity.
    rewrite (get_payments_rows id' db prows Hp).
    rewrite filter_app, filter_cons_False, app_nil_r; [done|].
    unfold of_transaction. congruence.
Qed.

Lemma updated_by_commute (t2 t3 : Transaction) (r : TransactionRow) :
  transaction_id t3 = transaction_id t2 →
  timestamp t2 ≠ timestamp t3 →
  updated_by t3 (updated_by t2 r) = updated_by t2 (updated_by t3 r).
Proof.
  intros Hid Hts. unfold updated_by.
  destruct (decide (stale_for t2 r)) as [[H2 H2']|H2];
    destruct (decide (stale_for t3 r)) as [[H3 H3']|H3];
    simpl;
    repeat (let H := fresh "H" in case_decide as H; try unfold stale_for in H; simpl in H);
    try fold (timestamp t2) in *; try fold (timestamp t3) in *;
    try reflexivity;
    try (exfalso; unfold stale_for in *; (intuition lia) || (intuition congruence)).
Qed.

Lemma updated_by_ids (t : Transaction) (rows : list TransactionRow) :
  tx_transaction_id <$> (updated_by t <$> rows) = tx_transaction_id <$> rows.
Proof.
  rewrite <- list_fmap_compose. apply list_fmap_ext. intros ? r _. apply updated_by_id.
Qed.

Lemma set_transactions_twice v v' t :
  set_transactions v (set_transactions v' t) = set_transactions v t.
Proof. reflexivity. Qed.

(** Two updates of a stored transaction, one after the other. *)
Lemma insert_or_update_transaction_twice (t t' : Transaction) (db : DB) trows :
  tbl_transactions (work db) = Some trows →
  transaction_id t' = transaction_id t →
  transaction_id t ∈ tx_transaction_id <$> trows →
  (do_ insert_or_update_transaction t; insert_or_update_transaction t') db =
  (Return tt,
   let w := set_transactions (Some (updated_by t' <$> (updated_by t <$> trows))) (work db)
   in {| work := w; durable := w |}).
Proof.
  intros Ht Hid Hin. unfold bind.
  rewrite (insert_or_update_transaction_rows t db trows Ht). cbn zeta.
  rewrite decide_True by done.
  erewrite insert_or_update_transaction_rows by reflexivity. cbn zeta.
  rewrite decide_True by (rewrite updated_by_ids, Hid; exact Hin).
  reflexivity.
Qed.

(** X12: two updates of a stored transaction that carry different timestamps
    can be applied in either order: the store ends up the same, so late or
    reordered delivery does not matter. *)
Theorem insert_or_update_transaction_commutes (t2 t3 : Transaction) (db : DB) trows :
  tbl_transactions (work db) = Some trows →
  transaction_id t3 = transaction_id t2 →
  transaction_id t2 ∈ tx_transaction_id <$> trows →
  timestamp t2 ≠ timestamp t3 →
  (do_ insert_or_update_transaction t2; insert_or_update_transaction t3) db =
  (do_ insert_or_update_transaction t3; insert_or_update_transaction t2) db.
Proof.
  intros Ht Hid Hin Hts.
  rewrite (insert_or_update_transaction_twice t2 t3 db trows Ht Hid Hin).
  rewrite (insert_or_update_transaction_twice t3 t2 db trows Ht)
    by (done || by rewrite Hid).
  cbn zeta.
  assert (updated_by t3 <$> (updated_by t2 <$> trows) =
          updated_by t2 <$> (updated_by t3 <$> trows)) as ->; [|reflexivity].
  rewrite <- !list_fmap_compose. apply list_fmap_ext. intros ? r _.
  by apply updated_by_commute.
Qed.

Lemma updated_by_filter (t : Transaction) (id : bytes) (rows : list TransactionRow) :
  filter (λ r, tx_transaction_id r = id) (updated_by t <$> rows) =
  updated_by t <$> filter (λ r, tx_transaction_id r = id) rows.
Proof.
  induction rows as [|r rows IH]; [done|]. rewrite fmap_cons.
  destruct (decide (tx_transaction_id r = id)) as [Hr|Hr].
  - rewrite !filter_cons_True by (by rewrite ?updated_by_id). by rewrite fmap_cons, IH.
  - rewrite !filter_cons_False by (by rewrite ?updated_by_id). done.
Qed.

(** X13: on a stored id insert_or_update_transaction keeps the newer state:
    the stored timestamp becomes the larger of the stored and the incoming
    one, so it never goes back; the payments of the transaction are not
    touched and every other transaction reads as before. *)
Theorem insert_or_update_transaction_keeps_newest (t : Transaction) (db : DB) trows prows :
  tbl_transactions (work db) = Some trows →
  tbl_payments (work db) = Some prows →
  transaction_id t ∈ tx_transaction_id <$> trows →
  ∃ db' stored stored',
    insert_or_update_transaction t db = (Return tt, db') ∧
    get_transaction (transaction_id t) db = (Return (Some stored), db) ∧
    get_transaction (transaction_id t) db' = (Return (Some stored'), db') ∧
    timestamp stored' = Z.max (timestamp stored) (timestamp t) ∧
    transaction_payments stored' = transaction_payments stored ∧
    tbl_payments (work db') = tbl_payments (work db) ∧
    (∀ id', id' ≠ transaction_id t →
       (get_transaction id' db').1 = (get_transaction id' db).1).
Proof.
  intros Ht Hp Hin.
  rewrite (insert_or_update_transaction_rows t db trows Ht). cbn zeta.
  rewrite decide_True by done.
  destruct (filter (λ r, tx_transaction_id r = transaction_id t) trows) as [|r0 rest] eqn:Hf.
  { apply list_elem_of_fmap in Hin as (r & Hr & Hin).
    exfalso. apply (filter_nil_not_elem_of _ _ r Hf); [by symmetry | exact Hin]. }
  assert (tx_transaction_id r0 = transaction_id t) as Hr0.
  { assert (r0 ∈ filter (λ r, tx_transaction_id r = transaction_id t) trows) as Hel
      by (rewrite Hf; left).
    by apply list_elem_of_filter in Hel as [? _]. }
  eexists _, _, _. split; [reflexivity|].
  split; [rewrite (get_transaction_rows _ db trows prows Ht Hp), Hf; reflexivity|].
  split; [erewrite get_transaction_rows by (reflexivity || exact Hp);
          rewrite updated_by_filter, Hf; reflexivity|].
  split; [|split; [reflexivity|split; [reflexivity|]]].
  - unfold timestamp at 1 2. simpl. unfold updated_by, stale_for.
    case_decide as Hs; simpl; fold (timestamp t); [lia|].
    assert (¬ tx_transaction_timestamp r0 < timestamp t) by tauto. lia.
  - intros id' Hne.
    erewrite get_transaction_rows by (reflexivity || exact Hp).
    rewrite (get_transaction_rows id' db trows prows Ht Hp), updated_by_filter.
    rewrite (updated_by_other t (filter _ trows)); [done|].
    intros (r & Hr & [Hid _]%list_elem_of_filter)%list_elem_of_fmap. congruence.
Qed.

(** ** Ticks *)

Lemma set_ticks_same t krows :
  tbl_ticks t = Some krows → set_ticks (Some krows) t = t.
Proof. intros <-. destruct t; reflexivity. Qed.

Lemma add_ticks_all (new : list TickRow) (db : DB) krows :
  tbl_ticks (work db) = Some krows →
  (∀ k, k ∈ new → tbl_key ticks k ∉ tbl_key ticks <$> krows) →
  NoDup (tbl_key ticks <$> new) →
  ∃ db', for_each new add_tick db = (Return tt, db') ∧
         work db' = set_ticks (Some (krows ++ new)) (work db) ∧
         (new ≠ [] → durable db' = work db') ∧
         (new = [] → db' = db).
Proof.
  revert db krows. induction new as [|k new IH]; intros db krows Hk Hfree Hnd.
  - exists db. split; [reflexivity|]. rewrite app_nil_r, (set_ticks_same _ _ Hk). done.
  - rewrite for_each_cons. unfold add_tick at 1, bind at 1.
    rewrite (sql_insert_fresh ticks _ db krows Hk) by (apply Hfree; left).
    cbn [commit]. rewrite fmap_cons in Hnd. apply NoDup_cons in Hnd as [Hk0 Hnd].
    set (db1 := {| work := _; durable := _ |}).
    destruct (IH db1 (krows ++ [k]) eq_refl) as (db' & Hrun & Hwork & Hdur & Hnil);
      [|exact Hnd|].
    + intros k' Hin. rewrite fmap_app, elem_of_app. intros [Hold|Hnew].
      * apply (Hfree k'); [by right | exact Hold].
      * apply list_elem_of_singleton in Hnew. apply Hk0.
        rewrite <- Hnew. apply list_elem_of_fmap. eauto.
    + exists db'. split; [exact Hrun|]. split; [|split; [|done]].
      * rewrite Hwork. subst db1. cbn. rewrite <- app_assoc. reflexivity.
      * intros _. destruct new as [|k' new]; [|apply Hdur; done].
        rewrite (Hnil eq_refl). reflexivity.
Qed.

(** X14: clearing the ticks and adding a list of ticks with distinct keys
    leaves exactly that list, in that order, whatever was stored before; the
    clearing itself is committed only by the first insert, so with an empty
    list the durable copy keeps the old ticks. *)
Theorem rebuild_ticks (new : list TickRow) (db : DB) krows :
  tbl_ticks (work db) = Some krows →
  NoDup (tbl_key ticks <$> new) →
  ∃ db', (do_ delete_all_ticks; for_each new add_tick) db = (Return tt, db') ∧
         get_ticks db' = (Return new, db') ∧
         (new ≠ [] → durable db' = work db') ∧
         (new = [] → durable db' = durable db).
Proof.
  intros Hk Hnd. unfold bind, delete_all_ticks.
  rewrite (sql_delete_rows ticks _ db krows Hk).
  rewrite (filter_none (λ r, ¬ True) krows) by tauto.
  set (db1 := set_work _ _).
  destruct (add_ticks_all new db1 [] eq_refl) as (db' & Hrun & Hwork & Hdur & Hnil);
    [intros k _; apply not_elem_of_nil | exact Hnd |].
  exists db'. split; [exact Hrun|]. split; [|split; [exact Hdur|]].
  - unfold get_ticks. erewrite (sql_select_rows ticks) by (rewrite Hwork; reflexivity).
    rewrite filter_all by done. reflexivity.
  - intros Hnone. rewrite (Hnil Hnone). reflexivity.
Qed.

(** ** The version check between the two constants *)

(** X15: when the inherited constant is above the module's and the version
    lies in between, the check is not destructive: no table is dropped, each
    of the five tables keeps its rows (or is created empty when it was
    missing), the version marker is set back to the module constant, and
    whatever was pending is committed. *)
Theorem check_database_between_constants_keeps_rows (P : Z) (b : bytes) (db : DB) :
  digits_only b → LATEST_DB_VERSION ≤ int b < P →
  ∃ db', check_database P (PyBytes b) db = (Return LATEST_DB_VERSION, db') ∧
         tbl_orders (work db') = if_not_exists (tbl_orders (work db)) ∧
         tbl_transactions (work db') = if_not_exists (tbl_transactions (work db)) ∧
         tbl_payments (work db') = if_not_exists (tbl_payments (work db)) ∧
         tbl_ticks (work db') = if_not_exists (tbl_ticks (work db)) ∧
         tbl_orders_reserved_ticks (work db')
           = if_not_exists (tbl_orders_reserved_ticks (work db)) ∧
         tbl_traders (work db') = tbl_traders (work db) ∧
         version_marker (work db') = Some (pretty LATEST_DB_VERSION) ∧
         durable db' = work db'.
Proof.
  intros Hb Hv. rewrite (check_database_between_constants P b db Hb Hv).
  destruct db as [[o t p k r op tr] d].
  assert (∀ opts : list OptionRow,
    head (filter (λ r, opt_key r = "database_version"%string)
            (filter (λ r', opt_key r' ≠ "database_version"%string) opts
               ++ [{| opt_key := "database_version";
                      opt_value := pretty LATEST_DB_VERSION |}]))
    = Some {| opt_key := "database_version"; opt_value := pretty LATEST_DB_VERSION |})
    as Hmarker.
  { intros opts. rewrite filter_app.
    rewrite (filter_none _ (filter _ opts)); [reflexivity|].
    intros x [Hx _]%list_elem_of_filter. exact Hx. }
  destruct op as [opts|]; eexists; (split; [reflexivity|]); cbn;
    repeat split; try reflexivity.
  unfold version_marker. cbn. rewrite Hmarker. reflexivity.
Qed.

(** ** PaymentId as a value *)

(** X16: PaymentIds are equal by content: [__eq__] between two of them holds
    exactly when they wrap the same string, it is symmetric, [__ne__] is its
    negation, equal ids have equal hashes, and [str] gives back the string a
    PaymentId was built from, from which an equal PaymentId is rebuilt. *)
Theorem PaymentId_equality_by_content (hash : string → Z) (p q : PaymentId.t) :
  (PaymentId.__eq__ p (PaymentId.Instance_ q) = PaymentId.Bool true ↔ p = q) ∧
  PaymentId.__eq__ p (PaymentId.Instance_ q) = PaymentId.__eq__ q (PaymentId.Instance_ p) ∧
  PaymentId.__ne__ p (PaymentId.Instance_ q) =
    negb (PaymentId.truth (PaymentId.__eq__ p (PaymentId.Instance_ q))) ∧
  (PaymentId.__ne__ p (PaymentId.Instance_ q) = true ↔ p ≠ q) ∧
  (PaymentId.__eq__ p (PaymentId.Instance_ q) = PaymentId.Bool true →
   PaymentId.__hash__ hash p = PaymentId.__hash__ hash q) ∧
  PaymentId.init (PyStr (PaymentId.__str__ p)) = Return p.
Proof.
  destruct p as [s], q as [s']. unfold PaymentId.__ne__, PaymentId.__eq__,
    PaymentId.__hash__, PaymentId.payment_id. simpl.
  split; [|split; [|split; [|split; [|split]]]].
  - split.
    + intros [= H%bool_decide_eq_true]. by rewrite H.
    + intros [= ->]. by rewrite bool_decide_eq_true_2.
  - f_equal. apply bool_decide_ext. split; congruence.
  - reflexivity.
  - rewrite negb_true_iff, bool_decide_eq_false. split; congruence.
  - intros [= H%bool_decide_eq_true]. by rewrite H.
  - reflexivity.
Qed.

(** ** Concrete runs of the further properties *)

Ltac no_row := let r := fresh in let H := fresh in intros r H; inversion H.

Ltac each_row :=
  let r := fresh "r" in let H := fresh "H" in
  intros r H;
  repeat (apply elem_of_cons in H as [->|H]; [|]);
  [..| inversion H].

Ltac distinct :=
  repeat (apply NoDup_cons_2;
          [rewrite ?elem_of_cons, elem_of_nil; intuition discriminate|]);
  apply NoDup_nil_2.

Lemma add_order_get_order_witness :
  tbl_orders (work Sample.db_o) = Some [order_row Sample.o] ∧
  NoDup ((reserved_ticks Sample.o_rev).*1) ∧
  ∃ db', add_order Sample.o_rev Sample.db_o = (Return tt, db') ∧
         get_order (order_id Sample.o_rev) db' =
           (Return (Some (Sample.an_order "carol" 2 [(Sample.bob_4, 7); (Sample.bob_9, 3)])),
            db') ∧
         durable db' = work db'.
Proof.
  assert (NoDup ((reserved_ticks Sample.o_rev).*1)) as Hnd by distinct.
  split; [reflexivity|]. split; [exact Hnd|].
  destruct (add_order_get_order Sample.o_rev Sample.db_o _ _ eq_refl eq_refl)
    as (db' & rt & Hrun & Hget & _ & _ & Hdur); [| | exact Hnd |].
  - each_row. intros [H _]. discriminate H.
  - each_row; intros [H _]; discriminate H.
  - exists db'. split; [exact Hrun|]. split; [|exact Hdur].
    injection Hrun as <-. reflexivity.
Defined.

Lemma duplicate_key_raises_witness :
  tbl_orders (work Sample.db_o) = Some [order_row Sample.o] ∧
  add_order Sample.o Sample.db_o = (Raise IntegrityError, Sample.db_o).
Proof.
  split; [reflexivity|].
  refine (proj1 (duplicate_key_raises Sample.db_o) Sample.o _ eq_refl _).
  left.
Defined.

Lemma delete_order_keeps_other_orders_witness :
  Sample.bob_4 ≠ Sample.alice_1 ∧
  ∃ db', delete_order Sample.alice_1 (Sample.after (add_order Sample.o2) Sample.db_o)
           = (Return tt, db') ∧
         (get_order Sample.bob_4 db').1 = Return (Some Sample.o2).
Proof.
  assert (Sample.bob_4 ≠ Sample.alice_1) as Hne by discriminate.
  split; [exact Hne|].
  destruct (delete_order_keeps_other_orders Sample.alice_1 Sample.bob_4
              (Sample.after (add_order Sample.o2) Sample.db_o) _ _ eq_refl eq_refl Hne)
    as (db' & Hrun & Hget & _).
  exists db'. split; [exact Hrun|]. rewrite Hget. reflexivity.
Defined.

Lemma add_reserved_tick_adds_entry_witness :
  ∃ db', add_reserved_tick Sample.alice_1 Sample.alice_1 1 Sample.db_o = (Return tt, db') ∧
         get_reserved_ticks Sample.alice_1 db' =
           (Return [(Sample.alice_1, 1); (Sample.bob_4, 7); (Sample.bob_9, 3)], db').
Proof.
  destruct (add_reserved_tick_adds_entry Sample.alice_1 Sample.alice_1 1 Sample.db_o
              _ eq_refl)
    as (db' & old & new & Hrun & _ & Hnew & _).
  - intros H. apply list_elem_of_In in H. vm_compute in H. intuition discriminate.
  - exists db'. split; [exact Hrun|]. injection Hrun as <-. reflexivity.
Defined.

Lemma delete_reserved_ticks_keeps_order_witness :
  ∃ db', delete_reserved_ticks Sample.alice_1 Sample.db_o = (Return tt, db') ∧
         get_reserved_ticks Sample.alice_1 db' = (Return [], db') ∧
         (get_order Sample.alice_1 db').1 =
           Return (Some (Order_from_database (order_row Sample.o) [])).
Proof.
  destruct (delete_reserved_ticks_keeps_order Sample.alice_1 Sample.db_o _ _ eq_refl eq_refl)
    as (db' & Hrun & Hnone & Hget & _).
  exists db'. split; [exact Hrun|]. split; [exact Hnone|]. rewrite Hget. reflexivity.
Defined.

Lemma get_next_order_number_is_free_witness :
  ∃ n, get_next_order_number Sample.db_372 = (Return n, Sample.db_372) ∧
       ∀ trader, (trader, n) ∉ tbl_key orders <$> rows_of (tbl_orders (work Sample.db_372)).
Proof.
  destruct (get_next_order_number_is_free Sample.db_372 _ eq_refl)
    as (n & Hrun & _ & Hfree & _).
  exists n. split; [exact Hrun | exact Hfree].
Defined.

Lemma delete_order_undoes_add_order_witness :
  NoDup ((reserved_ticks Sample.o).*1) ∧
  ∃ db1 db2,
    add_order Sample.o Sample.db0 = (Return tt, db1) ∧
    delete_order (order_id Sample.o) db1 = (Return tt, db2) ∧
    work db2 = work Sample.db0 ∧
    tbl_orders (durable db2) = Some [order_row Sample.o].
Proof.
  assert (NoDup ((reserved_ticks Sample.o).*1)) as Hnd by distinct.
  split; [exact Hnd|].
  destruct (delete_order_undoes_add_order Sample.o Sample.db0 [] [] eq_refl eq_refl)
    as (db1 & db2 & Hadd & Hdel & Hwork & _ & Hdur & _); [no_row | no_row | exact Hnd |].
  exists db1, db2. split; [exact Hadd|]. split; [exact Hdel|]. split; [exact Hwork|].
  exact Hdur.
Defined.

Lemma add_transaction_get_transaction_witness :
  StronglySorted (λ p q, pay_timestamp p < pay_timestamp q)
    (transaction_payments Sample.t_sorted) ∧
  ∃ db', add_transaction Sample.t_sorted Sample.db_t1 = (Return tt, db') ∧
         get_transaction (transaction_id Sample.t_sorted) db'
           = (Return (Some Sample.t_sorted), db').
Proof.
  assert (StronglySorted (λ p q, pay_timestamp p < pay_timestamp q)
            (transaction_payments Sample.t_sorted)) as Hs.
  { repeat constructor. }
  split; [exact Hs|].
  destruct (add_transaction_get_transaction Sample.t_sorted Sample.db_t1 _ _
              eq_refl eq_refl)
    as (db' & ps & Hrun & _ & _ & _ & Hget).
  - intros H. apply list_elem_of_In in H. vm_compute in H. intuition discriminate.
  - each_row; reflexivity.
  - distinct.
  - exists db'. split; [exact Hrun | exact (Hget Hs)].
Defined.

Lemma add_transaction_durability_witness :
  get_payments "tx" Sample.db_old = (Return [Sample.p_old], Sample.db_old) ∧
  transaction_payments Sample.t_bare = [] ∧
  ∃ db', add_transaction Sample.t_bare Sample.db_old = (Return tt, db') ∧
         tbl_payments (durable db') = Some [Sample.p_old] ∧
         tbl_payments (work db') = Some [].
Proof.
  split; [reflexivity|]. split; [reflexivity|].
  destruct (add_transaction_durability Sample.t_bare Sample.db_old _ _ eq_refl eq_refl)
    as (db' & Hrun & _ & _ & Hbare).
  - apply not_elem_of_nil.
  - no_row.
  - apply NoDup_nil_2.
  - exists db'. split; [exact Hrun|]. exact (Hbare eq_refl).
Defined.

Lemma delete_transaction_cascades_witness :
  get_payments "tx" Sample.db_t1 = (Return [Sample.p1], Sample.db_t1) ∧
  ∃ db', delete_transaction "tx" Sample.db_t1 = (Return tt, db') ∧
         get_transaction "tx" db' = (Return None, db') ∧
         get_payments "tx" db' = (Return [], db') ∧
         durable db' = durable Sample.db_t1.
Proof.
  split; [reflexivity|].
  destruct (delete_transaction_cascades "tx" Sample.db_t1 _ _ eq_refl eq_refl)
    as (db' & Hrun & Hnone & Hpay & _ & Hdur).
  exists db'. done.
Defined.

Lemma add_payment_appends_witness :
  ∃ db' new,
    add_payment Sample.p3 Sample.db_t1 = (Return tt, db') ∧
    get_payments "tx" db' = (Return new, db') ∧
    new ≡ₚ [Sample.p3; Sample.p1] ∧
    StronglySorted by_timestamp new.
Proof.
  destruct (add_payment_appends Sample.p3 Sample.db_t1 _ eq_refl)
    as (db' & old & new & Hrun & Hold & Hnew & Hperm & Hsorted & _).
  - intros H. apply list_elem_of_In in H. vm_compute in H. intuition discriminate.
  - exists db', new. split; [exact Hrun|]. split; [exact Hnew|].
    injection Hold as <-. split; [exact Hperm | exact Hsorted].
Defined.

Lemma insert_or_update_transaction_commutes_witness :
  timestamp Sample.t2 ≠ timestamp Sample.t3 ∧
  (do_ insert_or_update_transaction Sample.t2;
   insert_or_update_transaction Sample.t3) Sample.db_t1 =
  (do_ insert_or_update_transaction Sample.t3;
   insert_or_update_transaction Sample.t2) Sample.db_t1.
Proof.
  assert (timestamp Sample.t2 ≠ timestamp Sample.t3) as Hts by discriminate.
  split; [exact Hts|].
  refine (insert_or_update_transaction_commutes Sample.t2 Sample.t3 Sample.db_t1 _
            eq_refl eq_refl _ Hts).
  left.
Defined.

Lemma insert_or_update_transaction_keeps_newest_witness :
  ∃ db' stored',
    insert_or_update_transaction Sample.t2 (Sample.after
      (insert_or_update_transaction Sample.t3) Sample.db_t1) = (Return tt, db') ∧
    get_transaction "tx" db' = (Return (Some stored'), db') ∧
    timestamp stored' = 300.
Proof.
  destruct (insert_or_update_transaction_keeps_newest Sample.t2
              (Sample.after (insert_or_update_transaction Sample.t3) Sample.db_t1)
              _ _ eq_refl eq_refl)
    as (db' & stored & stored' & Hrun & Hold & Hnew & Hts & _); [left|].
  exists db', stored'. split; [exact Hrun|]. split; [exact Hnew|].
  rewrite Hts. injection Hold as <-. reflexivity.
Defined.

Lemma rebuild_ticks_witness :
  get_ticks Sample.db_tick = (Return [Sample.a_tick "bob" 4], Sample.db_tick) ∧
  ∃ db', (do_ delete_all_ticks;
          for_each [Sample.a_tick "alice" 1; Sample.a_tick "bob" 4] add_tick) Sample.db_tick
           = (Return tt, db') ∧
         get_ticks db' = (Return [Sample.a_tick "alice" 1; Sample.a_tick "bob" 4], db').
Proof.
  split; [reflexivity|].
  destruct (rebuild_ticks [Sample.a_tick "alice" 1; Sample.a_tick "bob" 4]
              Sample.db_tick _ eq_refl)
    as (db' & Hrun & Hget & _); [distinct|].
  exists db'. split; [exact Hrun | exact Hget].
Defined.

Lemma check_database_between_constants_keeps_rows_witness :
  digits_only "6" ∧ LATEST_DB_VERSION ≤ int "6" < 7 ∧
  ∃ db', check_database 7 (PyBytes "6") Sample.db_rows = (Return LATEST_DB_VERSION, db') ∧
         tbl_orders (work db') = tbl_orders (work Sample.db_rows) ∧
         length (rows_of (tbl_orders (work db'))) = 1%nat ∧
         version_marker (work db') = Some (pretty LATEST_DB_VERSION).
Proof.
  assert (digits_only "6") as Hd by (apply isdigit_spec; reflexivity).
  assert (LATEST_DB_VERSION ≤ int "6" < 7) as Hv by (vm_compute; split; [discriminate|reflexivity]).
  split; [exact Hd|]. split; [exact Hv|].
  destruct (check_database_between_constants_keeps_rows 7 "6" Sample.db_rows Hd Hv)
    as (db' & Hrun & Ho & _ & _ & _ & _ & _ & Hm & _).
  exists db'. split; [exact Hrun|]. split; [rewrite Ho; reflexivity|].
  split; [rewrite Ho; reflexivity | exact Hm].
Defined.

Lemma PaymentId_equality_by_content_witness :
  PaymentId.__eq__ Sample.pid_abc (PaymentId.Instance_ Sample.pid_abc') = PaymentId.Bool true ∧
  PaymentId.__hash__ Sample.a_hash Sample.pid_abc =
  PaymentId.__hash__ Sample.a_hash Sample.pid_abc'.
Proof.
  split; [reflexivity|].
  exact (proj1 (proj2 (proj2 (proj2 (proj2
    (PaymentId_equality_by_content Sample.a_hash Sample.pid_abc Sample.pid_abc')))))
    eq_refl).
Defined.
